(** * SubDomainFinder: the resolution pipeline of the two scripts

    The repository holds two independent Node scripts:
    - [Subfinder] embeds the script whose header names it [subfinder.js]
      (fetch from crt.sh, [resolveHost], [concurrencyMap], [main]);
    - [DomainJs] embeds [subdomain.js] (header [domain.js]: interactive
      prompt, [fetchSubdomains], sequential [resolveSubdomains]).

    A JavaScript string is modelled by its sequence of code units, each
    below 256 (Latin-1, which contains the ASCII names found in
    certificate logs); a [Set] by the list of its elements in insertion
    order; an awaited call by an event whose answer is the way its promise
    settles.  Every promise of the libraries is taken to settle: a call
    that the library gives up on is a rejected call. *)

From Stdlib Require Import List String Ascii Bool Arith ZArith Lia.
From Stdlib Require Import Permutation Sorted.
Import ListNotations.
Open Scope string_scope.
Open Scope list_scope.

(* ================================================================== *)
(** * JavaScript strings *)
(* ================================================================== *)

Module JsString.

(** Code units that [String.prototype.trim] removes (WhiteSpace and
    LineTerminator below 256): TAB, LF, VT, FF, CR, SPACE, NBSP. *)
Definition isWhiteSpace (c : ascii) : bool :=
  match nat_of_ascii c with
  | 9 | 10 | 11 | 12 | 13 | 32 | 160 => true
  | _ => false
  end.

(** [toLowerCase] on one code unit: A-Z and the Latin-1 capitals
    U+00C0..U+00DE (the multiplication sign U+00D7 apart) move up by 32. *)
Definition toLowerUnit (c : ascii) : ascii :=
  let n := nat_of_ascii c in
  if (((65 <=? n) && (n <=? 90)) ||
      ((192 <=? n) && (n <=? 222) && negb (n =? 215)))%nat
  then ascii_of_nat (n + 32)
  else c.

Fixpoint toLowerCase (s : string) : string :=
  match s with
  | EmptyString => EmptyString
  | String c s' => String (toLowerUnit c) (toLowerCase s')
  end.

Fixpoint trimStart (s : string) : string :=
  match s with
  | EmptyString => EmptyString
  | String c s' => if isWhiteSpace c then trimStart s' else s
  end.

Fixpoint trimEnd (s : string) : string :=
  match s with
  | EmptyString => EmptyString
  | String c s' =>
      match trimEnd s' with
      | EmptyString => if isWhiteSpace c then EmptyString else String c EmptyString
      | t => String c t
      end
  end.

Definition trim (s : string) : string := trimEnd (trimStart s).

(** [s.replace(/^\*\./, '')]: the pattern is anchored and not global, so at
    most one leading ["*."] goes. *)
Definition replaceWildcard (s : string) : string :=
  match s with
  | String "*" (String "." rest) => rest
  | _ => s
  end.

(** [s.endsWith(suffix)]. *)
Fixpoint endsWith (s suffix : string) : bool :=
  (s =? suffix) ||
  match s with
  | EmptyString => false
  | String _ s' => endsWith s' suffix
  end.

(** [s.split("\n")]: never empty, the empty string splits into one empty
    piece. *)
Fixpoint splitLines (s : string) : list string :=
  match s with
  | EmptyString => [EmptyString]
  | String c s' =>
      if (c =? "010")%char then EmptyString :: splitLines s'
      else match splitLines s' with
           | h :: t => String c h :: t
           | [] => [String c EmptyString]
           end
  end.

(** A string is truthy when it is not empty. *)
Definition nonEmpty (s : string) : bool := negb (s =? EmptyString).

End JsString.
Import JsString.

(* ================================================================== *)
(** * Sets and sorting *)
(* ================================================================== *)

(** [Set.prototype.add]: a new element goes last, a present one changes
    nothing. *)
Definition Set_add (x : string) (s : list string) : list string :=
  if existsb (String.eqb x) s then s else s ++ [x].

Definition Set_addAll (xs : list string) (s : list string) : list string :=
  fold_left (fun acc x => Set_add x acc) xs s.

Section StableSort.
Context {A : Type} (before : A -> A -> bool).

(** [before a b] says that [a] may stay in front of [b]. *)
Fixpoint insertSorted (x : A) (l : list A) : list A :=
  match l with
  | [] => [x]
  | y :: l' => if before x y then x :: l else y :: insertSorted x l'
  end.

(** [Array.prototype.sort] is stable; with a consistent comparator its
    result is the stable sorted arrangement, which insertion from the
    right computes. *)
Definition sortBy (l : list A) : list A := fold_right insertSorted [] l.
End StableSort.

(** [arr.sort()] on strings: ascending code-unit order. *)
Definition sortStrings (l : list string) : list string := sortBy String.leb l.

(* ================================================================== *)
(** * JavaScript values, exceptions and awaited calls *)
(* ================================================================== *)

(** What [res.data] can hold after axios has parsed (or failed to parse)
    the body.  A number is kept as an integer: the scripts only test its
    truthiness.  [JObject] lists the own properties of an object. *)
#[warnings="-register-all"] Inductive JsValue : Type :=
| JUndefined
| JNull
| JBool (b : bool)
| JNumber (z : Z)
| JString (s : string)
| JArray (elements : list JsValue)
| JObject (fields : list (string * JsValue)).

Definition truthy (v : JsValue) : bool :=
  match v with
  | JUndefined | JNull => false
  | JBool b => b
  | JNumber z => negb (z =? 0)%Z
  | JString s => nonEmpty s
  | JArray _ | JObject _ => true
  end.

Fixpoint getField (name : string) (fields : list (string * JsValue)) : JsValue :=
  match fields with
  | [] => JUndefined
  | (k, v) :: rest => if k =? name then v else getField name rest
  end.

(** An object literal passed as options: [{ all: true }], [{ timeout: 20000, ... }]. *)
Definition Options := list (string * JsValue).

Fixpoint hasKey (name : string) (o : Options) : bool :=
  match o with
  | [] => false
  | (k, _) :: rest => (k =? name) || hasKey name rest
  end.

Inductive JsError : Type :=
| TypeError (message : string)
| LibraryError (code : string) (message : string).

Definition message (e : JsError) : string :=
  match e with
  | TypeError m => m
  | LibraryError _ m => m
  end.

(** How a promise settles, and equally how a block of code completes:
    normally with a value or abruptly with a thrown error. *)
Inductive Settled (X : Type) : Type :=
| Fulfilled (x : X)
| Rejected (err : JsError).
Arguments Fulfilled {X} x.
Arguments Rejected {X} err.

Definition isFulfilled {X} (r : Settled X) : bool :=
  match r with Fulfilled _ => true | Rejected _ => false end.

(** [v.name_value]: reading a property of [null] or [undefined] throws,
    an object answers with its field, any other value has no such
    property. *)
Definition get_name_value (v : JsValue) : Settled JsValue :=
  match v with
  | JUndefined | JNull =>
      Rejected (TypeError "Cannot read properties of null or undefined (reading 'name_value')")
  | JObject fields => Fulfilled (getField "name_value" fields)
  | _ => Fulfilled JUndefined
  end.

(** [v.split("\n")]: only a string has a [split] method. *)
Definition call_split (v : JsValue) : Settled (list string) :=
  match v with
  | JString s => Fulfilled (splitLines s)
  | JUndefined | JNull =>
      Rejected (TypeError "Cannot read properties of null or undefined (reading 'split')")
  | _ => Rejected (TypeError "split is not a function")
  end.

(** [a || b]. *)
Definition orElse (a b : JsValue) : JsValue := if truthy a then a else b.

(** [a || b] on strings. *)
Definition orDefault (a b : string) : string := if nonEmpty a then a else b.

(** One entry of the array [dns.lookup(host, { all: true })] resolves to. *)
Record LookupAddress : Type := { address : string; family : nat }.

(** The awaited library calls, with the arguments the scripts pass. *)
Inductive netE : Type -> Type :=
| axios_get (url : string) (config : Options) : netE JsValue
| dns_lookup (host : string) (options : Options) : netE (list LookupAddress)
| dns_resolve4 (host : string) : netE (list string)
| dns_resolve6 (host : string) : netE (list string).

(** A call as it appears in the source text: callee, first argument and
    options object (empty when the call passes none). *)
Record Call : Type := { callee : string; subject : string; options : Options }.

Definition describe {X} (e : netE X) : Call :=
  match e with
  | axios_get url config => {| callee := "axios.get"; subject := url; options := config |}
  | dns_lookup host o => {| callee := "dns.lookup"; subject := host; options := o |}
  | dns_resolve4 host => {| callee := "dns.resolve4"; subject := host; options := [] |}
  | dns_resolve6 host => {| callee := "dns.resolve6"; subject := host; options := [] |}
  end.

(** A call is time-boxed by its caller when its options carry a [timeout]. *)
Definition hasTimeout (c : Call) : bool := hasKey "timeout" (options c).

(** Console output.  An interpolated value is kept apart from the text,
    where [#] marks its place; line breaks inside a text are left out. *)
Inductive Line : Type :=
| Info (text : string)
| InfoName (text : string) (name : string)
| InfoCount (text : string) (n : nat)
| ErrorLine (text : string) (detail : string)
| HostLine (item : string)
| AddressLine (ip : string)
| ResolvedLine (item : string) (ips : list string).

(** Code that logs and awaits library calls.  [Await e k] suspends on the
    promise of [e] and resumes [k] with the way it settled. *)
Inductive Prog (A : Type) : Type :=
| Ret (a : A)
| Log (l : Line) (k : Prog A)
| Await {X : Type} (e : netE X) (k : Settled X -> Prog A).
Arguments Ret {A} a.
Arguments Log {A} l k.
Arguments Await {A X} e k.

(** The body of an [async function]: it completes with a value or with a
    thrown error, which settles the promise it returned. *)
Definition Async (A : Type) : Type := Prog (Settled A).

Fixpoint bindProg {A B} (p : Prog A) (f : A -> Prog B) : Prog B :=
  match p with
  | Ret a => f a
  | Log l k => Log l (bindProg k f)
  | Await e k => Await e (fun r => bindProg (k r) f)
  end.

Definition ret {A} (a : A) : Async A := Ret (Fulfilled a).
Definition throw {A} (err : JsError) : Async A := Ret (Rejected err).

(** Sequencing: a thrown error skips the rest. *)
Definition bind {A B} (p : Async A) (f : A -> Async B) : Async B :=
  bindProg p (fun r => match r with
                       | Fulfilled a => f a
                       | Rejected err => throw err
                       end).

(** [try { p } catch (err) { handler err }]. *)
Definition tryCatch {A} (p : Async A) (handler : JsError -> Async A) : Async A :=
  bindProg p (fun r => match r with
                       | Fulfilled a => ret a
                       | Rejected err => handler err
                       end).

(** [await call]: a rejected promise throws at the await. *)
Definition await {X} (e : netE X) : Async X := Await e (fun r => Ret r).

(** A synchronous step that may throw. *)
Definition lift {A} (r : Settled A) : Async A := Ret r.

Definition log (l : Line) : Async unit := Log l (ret tt).

Declare Scope async_scope.
Delimit Scope async_scope with async.
Notation "x <- p ;; q" := (bind p (fun x => q))
  (at level 61, p at next level, right associativity) : async_scope.
Notation "p ;;; q" := (bind p (fun _ => q))
  (at level 61, right associativity) : async_scope.

(** The network as seen by one run: how each call settles. *)
Definition Handler : Type := forall X, netE X -> Settled X.

Fixpoint run {A} (h : Handler) (p : Prog A) : A :=
  match p with
  | Ret a => a
  | Log _ k => run h k
  | Await e k => run h (k (h _ e))
  end.

Fixpoint output {A} (h : Handler) (p : Prog A) : list Line :=
  match p with
  | Ret _ => []
  | Log l k => l :: output h k
  | Await e k => output h (k (h _ e))
  end.

(** The library calls a run performs, in order. *)
Fixpoint trace {A} (h : Handler) (p : Prog A) : list Call :=
  match p with
  | Ret _ => []
  | Log _ k => trace h k
  | Await e k => describe e :: trace h (k (h _ e))
  end.

(** ** Outcome records pushed by the scheduler: [{ item, result }] or
    [{ item, error }]. *)
Inductive Outcome (A R : Type) : Type :=
| ResultRec (item : A) (result : R)
| ErrorRec (item : A) (error : JsError).
Arguments ResultRec {A R} item result.
Arguments ErrorRec {A R} item error.

Definition item {A R} (o : Outcome A R) : A :=
  match o with
  | ResultRec i _ => i
  | ErrorRec i _ => i
  end.

Definition hasResult {A R} (o : Outcome A R) : bool :=
  match o with
  | ResultRec _ _ => true
  | ErrorRec _ _ => false
  end.

(** What a call [mapper(item)] does: it throws before it returns, or it
    returns a promise (or a plain value), on which [await] suspends and
    which settles as [p].  An [async] function never throws before
    returning. *)
Inductive Called (R : Type) : Type :=
| Threw (err : JsError)
| Returned (p : Settled R).
Arguments Threw {R} err.
Arguments Returned {R} p.

(** The record pushed when an awaited promise settles: [{ item, result }]
    after the await, [{ item, error }] from the catch block. *)
Definition settledRecord {A R} (item : A) (p : Settled R) : Outcome A R :=
  match p with
  | Fulfilled result => ResultRec item result
  | Rejected err => ErrorRec item err
  end.

Fixpoint setNth {A} (n : nat) (x : A) (l : list A) : list A :=
  match l, n with
  | [], _ => []
  | _ :: t, 0 => x :: t
  | y :: t, S n' => y :: setNth n' x t
  end.

(* ================================================================== *)
(** * subfinder.js *)
(* ================================================================== *)

Module Subfinder.

Definition CRT_SH_BASE : string := "https://crt.sh/".
Definition MAX_CONCURRENT : nat := 20.

(** ** fetchSubdomains *)

(** Lines 40-41, the body of the inner loop:
    [n = n.trim().replace(/^\*\./, ''); if (n.endsWith(domain)) subs.add(n.toLowerCase());]
    [Some h] is the string handed to [subs.add], [None] a name passed over. *)
Definition normalize (domain n : string) : option string :=
  let n := replaceWildcard (trim n) in
  if endsWith n domain then Some (toLowerCase n) else None.

(** [for (let n of names) ...] *)
Definition addNames (domain : string) (names subs : list string) : list string :=
  fold_left (fun subs n => match normalize domain n with
                           | Some h => Set_add h subs
                           | None => subs
                           end) names subs.

(** Line 38: [const names = (entry.name_value || '').split("\n")]. *)
Definition namesOf (entry : JsValue) : Settled (list string) :=
  match get_name_value entry with
  | Rejected err => Rejected err
  | Fulfilled nv => call_split (orElse nv (JString EmptyString))
  end.

(** The body of the outer loop, for one [entry]. *)
Definition addEntry (domain : string) (subs : list string) (entry : JsValue)
  : Settled (list string) :=
  match namesOf entry with
  | Rejected err => Rejected err
  | Fulfilled names => Fulfilled (addNames domain names subs)
  end.

(** [for (const entry of res.data) ...]: the first throw leaves the loop. *)
Fixpoint addEntries (domain : string) (entries : list JsValue) (subs : list string)
  : Settled (list string) :=
  match entries with
  | [] => Fulfilled subs
  | entry :: rest =>
      match addEntry domain subs entry with
      | Rejected err => Rejected err
      | Fulfilled subs' => addEntries domain rest subs'
      end
  end.

(** Lines 35-46: from [res.data] to the sorted array. *)
Definition collect (domain : string) (data : JsValue) : Settled (list string) :=
  match (match data with
         | JArray entries => addEntries domain entries []
         | _ => Fulfilled []
         end) with
  | Rejected err => Rejected err
  | Fulfilled subs => Fulfilled (sortStrings subs)
  end.

Definition fetchUrl (domain : string) : string :=
  (CRT_SH_BASE ++ "?q=%25." ++ domain ++ "&output=json")%string.

Definition fetchConfig : Options :=
  [("timeout", JNumber 20000);
   ("headers", JObject [("User-Agent", JString "subfinder_node/1.0")])].

Definition fetchSubdomains (domain : string) : Async (list string) :=
  tryCatch
    (data <- await (axios_get (fetchUrl domain) fetchConfig) ;;
     lift (collect domain data))%async
    (fun err =>
       log (ErrorLine "[!] Failed to fetch from crt.sh:" (message err)) ;;;
       ret [])%async.

(** ** resolveHost *)

(** Each [try { ... } catch {}] block: the addresses found go into [ips],
    a rejected call leaves [ips] as it was. *)
Definition resolveHost (host : string) : Async (list string) :=
  (let ips := [] in
   ips <- tryCatch
            (lookup <- await (dns_lookup host [("all", JBool true)]) ;;
             ret (Set_addAll (map address lookup) ips))
            (fun _ => ret ips) ;;
   ips <- tryCatch
            (a <- await (dns_resolve4 host) ;;
             ret (Set_addAll a ips))
            (fun _ => ret ips) ;;
   ips <- tryCatch
            (aaaa <- await (dns_resolve6 host) ;;
             ret (Set_addAll aaaa ips))
            (fun _ => ret ips) ;;
   ret ips)%async.

(** ** concurrencyMap *)

Section Scheduler.
Context {A R : Type}.
Variable items : list A.
(** [mapper i x] is what the call [mapper(x)] made for index [i] does. *)
Variable mapper : nat -> A -> Called R.
Variable concurrency : nat.

(** A worker is suspended at [await mapper(item)], on a promise that
    settles as [p], or has returned. *)
Inductive Worker : Type :=
| Awaiting (i : nat) (item : A) (p : Settled R)
| Done.

(** The shared variables [index] and [out], the promises in [workers], and
    a log of the mapper invocations made so far. *)
Record State : Type := {
  index : nat;
  out : list (Outcome A R);
  workers : list Worker;
  invoked : list A
}.

Definition isAwaiting (w : Worker) : bool :=
  match w with Awaiting _ _ _ => true | Done => false end.

Definition isDone (w : Worker) : bool := negb (isAwaiting w).

(** The worker loop from the top of [while (true)] to its next suspension
    or its return.  [rest] is what is left of [items] from position
    [index] on, so it is empty exactly when [i >= items.length] and its
    head is [items[i]] otherwise.  Each turn claims [i = index++]; on the
    claimed item the mapper is called: when the call returns, the worker
    suspends at the [await]; when it throws, the catch block pushes
    [{ item, error }] and the loop goes on in the same turn. *)
Fixpoint turn (rest : list A) (st : State) : State * Worker :=
  match rest with
  | [] =>
      ({| index := S (index st); out := out st; workers := workers st;
          invoked := invoked st |}, Done)
  | item :: rest' =>
      let i := index st in
      match mapper i item with
      | Returned p =>
          ({| index := S i; out := out st; workers := workers st;
              invoked := invoked st ++ [item] |}, Awaiting i item p)
      | Threw err =>
          turn rest' {| index := S i; out := out st ++ [ErrorRec item err];
                        workers := workers st;
                        invoked := invoked st ++ [item] |}
      end
  end.

Definition enterLoop (st : State) : State * Worker :=
  turn (skipn (index st) items) st.

(** [Array.from({ length: concurrency }, async () => ...)]: each worker is
    started in turn and runs up to its first suspension. *)
Fixpoint spawn (k : nat) (st : State) : State :=
  match k with
  | 0 => st
  | S k' =>
      let (st', w) := enterLoop st in
      spawn k' {| index := index st'; out := out st';
                  workers := workers st' ++ [w]; invoked := invoked st' |}
  end.

Definition start : State :=
  spawn concurrency {| index := 0; out := []; workers := []; invoked := [] |}.

(** Worker [w] resumes when its awaited promise settles: it pushes the
    outcome record and goes round the loop again. *)
Definition resume (w : nat) (st : State) : option State :=
  match nth_error (workers st) w with
  | Some (Awaiting i x p) =>
      let st1 := {| index := index st; out := out st ++ [settledRecord x p];
                    workers := workers st; invoked := invoked st |} in
      let (st2, wk) := enterLoop st1 in
      Some {| index := index st2; out := out st2;
              workers := setNth w wk (workers st2); invoked := invoked st2 |}
  | _ => None
  end.

(** One step of the event loop: some suspended worker resumes. *)
Inductive step : State -> State -> Prop :=
| step_resume w st st' : resume w st = Some st' -> step st st'.

Inductive reachable : State -> Prop :=
| reach_start : reachable start
| reach_step st st' : reachable st -> step st st' -> reachable st'.

(** [Promise.all(workers)] is fulfilled once every worker has returned. *)
Definition allDone (st : State) : bool := forallb isDone (workers st).

(** Mapper calls whose promise is still awaited. *)
Definition inFlight (st : State) : nat :=
  List.length (filter isAwaiting (workers st)).

(** Positions of the suspended workers, counted from [k]. *)
Fixpoint idsFrom (k : nat) (ws : list Worker) : list nat :=
  match ws with
  | [] => []
  | w :: ws' => (if isAwaiting w then [k] else []) ++ idsFrom (S k) ws'
  end.

Definition awaitingIds (st : State) : list nat := idsFrom 0 (workers st).

(** The order in which promises settle belongs to the environment: the
    number [n] picks one of the suspended workers. *)
Definition settleNext (n : nat) (st : State) : State :=
  let ids := awaitingIds st in
  match nth_error ids (n mod List.length ids) with
  | Some w => match resume w st with
              | Some st' => st'
              | None => st
              end
  | None => st
  end.

Definition exec (sched : list nat) : State :=
  fold_left (fun st n => settleNext n st) sched start.

(** What the caller of [concurrencyMap] gets after the settlements in
    [sched]: the array [out] once [Promise.all] is fulfilled, nothing while
    it is pending. *)
Definition concurrencyMap (sched : list nat) : option (list (Outcome A R)) :=
  let st := exec sched in
  if allDone st then Some (out st) else None.

End Scheduler.

(** ** main, lines 114-125 *)

Section Report.
(** [a.localeCompare(b)]: negative, zero or positive. *)
Variable localeCompare : string -> string -> Z.

Definition byItem (a b : Outcome string (list string)) : bool :=
  (localeCompare (item a) (item b) <=? 0)%Z.

(** [result && result.length > 0], where [result] is [undefined] for a
    record that carries an error. *)
Definition isLive (o : Outcome string (list string)) : bool :=
  match o with
  | ResultRec _ result => (0 <? List.length result)%nat
  | ErrorRec _ _ => false
  end.

Definition ipsOf (o : Outcome string (list string)) : list string :=
  match o with
  | ResultRec _ result => result
  | ErrorRec _ _ => []
  end.

(** The loop of lines 115-121 over the sorted records. *)
Definition printLoop (sorted : list (Outcome string (list string)))
  : list Line * nat :=
  fold_left (fun '(lines, count) o =>
               if isLive o
               then (lines ++ HostLine (item o) :: map AddressLine (ipsOf o), S count)
               else (lines, count))
            sorted ([], 0).

Definition report (subdomains : list string)
  (resolved : list (Outcome string (list string))) : list Line :=
  let '(lines, count) := printLoop (sortBy byItem resolved) in
  lines ++ [Info "Summary:";
            InfoCount " - Total subdomains found: #" (List.length subdomains);
            InfoCount " - Successfully resolved: #" count].

(** [main], for the command-line argument [domain] (already lowercased at
    line 22), the network [h] and the settlement order [sched].
    [resolveHost] is an [async] function: each call returns a promise. *)
Definition main (domain : string) (h : Handler) (sched : list nat) : list Line :=
  InfoName "[+] Fetching subdomains for: #" domain ::
  output h (fetchSubdomains domain) ++
  match run h (fetchSubdomains domain) with
  | Rejected _ => []
  | Fulfilled subdomains =>
      InfoCount "[+] Found # unique subdomains." (List.length subdomains) ::
      if (List.length subdomains =? 0)%nat
      then [Info "[!] No subdomains found."]
      else Info "[+] Resolving IP addresses..." ::
           match concurrencyMap subdomains
                                (fun _ host => Returned (run h (resolveHost host)))
                                MAX_CONCURRENT sched with
           | None => []
           | Some resolved => report subdomains resolved
           end
  end.

End Report.

(** ** Start of the script, lines 16-22 and 128 *)

(** [process.argv.slice(2)] is [args]: without an argument the usage line
    is printed and the process exits with status 1 ([None]); otherwise the
    domain is the first argument, lowercased. *)
Definition startup (args : list string) : list Line * option string :=
  match args with
  | [] => ([Info "Usage: node subfinder.js <domain>"], None)
  | a :: _ => ([], Some (toLowerCase a))
  end.

(** What the script prints, from its start to the end of [main]. *)
Definition program (localeCompare : string -> string -> Z) (args : list string)
  (h : Handler) (sched : list nat) : list Line :=
  match startup args with
  | (lines, None) => lines
  | (lines, Some domain) => lines ++ main localeCompare domain h sched
  end.

End Subfinder.

(* ================================================================== *)
(** * subdomain.js *)
(* ================================================================== *)

Module DomainJs.

(** Lines 55-56, the body of the inner loop:
    [sub = sub.trim().toLowerCase(); if (sub && sub.endsWith(domain)) subs.add(sub);] *)
Definition normalize (domain sub : string) : option string :=
  let sub := toLowerCase (trim sub) in
  if nonEmpty sub && endsWith sub domain then Some sub else None.

Definition addNames (domain : string) (parts subs : list string) : list string :=
  fold_left (fun subs sub => match normalize domain sub with
                             | Some h => Set_add h subs
                             | None => subs
                             end) parts subs.

(** Line 53: [const parts = row.name_value.split("\n")], with no default
    for a missing [name_value]. *)
Definition partsOf (row : JsValue) : Settled (list string) :=
  match get_name_value row with
  | Rejected err => Rejected err
  | Fulfilled nv => call_split nv
  end.

(** The body of the outer loop, for one [row]. *)
Definition addRow (domain : string) (subs : list string) (row : JsValue)
  : Settled (list string) :=
  match partsOf row with
  | Rejected err => Rejected err
  | Fulfilled parts => Fulfilled (addNames domain parts subs)
  end.

Fixpoint addRows (domain : string) (rows : list JsValue) (subs : list string)
  : Settled (list string) :=
  match rows with
  | [] => Fulfilled subs
  | row :: rest =>
      match addRow domain subs row with
      | Rejected err => Rejected err
      | Fulfilled subs' => addRows domain rest subs'
      end
  end.

(** [for (let row of res.data)]: an array yields its elements, a string
    its characters, anything else is not iterable. *)
Definition iterate (data : JsValue) : Settled (list JsValue) :=
  match data with
  | JArray rows => Fulfilled rows
  | JString s =>
      Fulfilled (map (fun c => JString (String c EmptyString)) (list_ascii_of_string s))
  | _ => Rejected (TypeError "res.data is not iterable")
  end.

Definition collect (domain : string) (data : JsValue) : Settled (list string) :=
  match iterate data with
  | Rejected err => Rejected err
  | Fulfilled rows => addRows domain rows []
  end.

Definition fetchUrl (domain : string) : string :=
  ("https://crt.sh/?q=%25." ++ domain ++ "&output=json")%string.

Definition fetchSubdomains (domain : string) : Async (list string) :=
  Log (InfoName "[i] Fetching subdomains for # from crt.sh..." domain)
    (tryCatch
       (data <- await (axios_get (fetchUrl domain) [("timeout", JNumber 20000)]) ;;
        lift (collect domain data))%async
       (fun err =>
          log (ErrorLine "[!] Error fetching crt.sh:" (message err)) ;;;
          ret [])%async).

(** [liveMap.set(sub, ips)] on a [Map] kept in insertion order. *)
Fixpoint Map_set (k : string) (v : list string) (m : list (string * list string))
  : list (string * list string) :=
  match m with
  | [] => [(k, v)]
  | (k', v') :: rest =>
      if k' =? k then (k, v) :: rest else (k', v') :: Map_set k v rest
  end.

(** Lines 69-81: one [resolve4] after the other, an unresolved name is
    skipped. *)
Fixpoint resolveLoop (subdomains : list string) (liveMap : list (string * list string))
  : Async (list (string * list string)) :=
  match subdomains with
  | [] => ret liveMap
  | sub :: rest =>
      (liveMap <- tryCatch
                    (ips <- await (dns_resolve4 sub) ;;
                     log (ResolvedLine sub ips) ;;;
                     ret (Map_set sub ips liveMap))
                    (fun _ => ret liveMap) ;;
       resolveLoop rest liveMap)%async
  end.

Definition resolveSubdomains (subdomains : list string)
  : Async (list (string * list string)) :=
  resolveLoop subdomains [].

(** Lines 33-41: the promise of [askDomain] is resolved with
    [answer.trim() || "example.com"], where [answer] is the line typed at
    the prompt. *)
Definition askDomain (answer : string) : string :=
  orDefault (trim answer) "example.com".

(** Lines 94-97 of [writeCSV]: the array [rows], one object
    [{ subdomain: host, ip }] per address of each entry of the map.  The
    text made of it by [Papa.unparse] and the file write are left out. *)
Record CsvRow : Type := { subdomain : string; ip : string }.

Definition csvRows (map : list (string * list string)) : list CsvRow :=
  flat_map (fun '(host, ips) =>
              List.map (fun ip => {| subdomain := host; ip := ip |}) ips) map.

End DomainJs.

(* ================================================================== *)
(** * The normaliser as the specification words it *)
(* ================================================================== *)




(* ================================================================== *)
(** * Vocabulary of the statements *)
(* ================================================================== *)

(** A [name_value] field: names separated by line feeds. *)
Definition joinLines (names : list string) : string :=
  String.concat (String "010" EmptyString) names.

(** The addresses one strategy call contributes: those of its answer, none
    when the call is rejected. *)
Definition found {X} (r : Settled (list X)) : list X :=
  match r with
  | Fulfilled l => l
  | Rejected _ => []
  end.

Definition lookupOptions : Options := [("all", JBool true)].

(** The three strategy calls of [resolveHost], as the source writes them. *)
Definition strategyCalls (host : string) : list Call :=
  [ {| callee := "dns.lookup"; subject := host; options := lookupOptions |};
    {| callee := "dns.resolve4"; subject := host; options := [] |};
    {| callee := "dns.resolve6"; subject := host; options := [] |} ].

(** A network on which every call is rejected after the library's own time
    limit. *)
Definition deadNetwork : Handler :=
  fun X _ => Rejected (LibraryError "ETIMEOUT" "timed out").

(** The upstream query has failed when the request is rejected (network
    error, timeout, status outside 2xx) or when [res.data] is not an array
    (a body that is not JSON reaches the script as a string, a JSON body of
    another shape as that value). *)
Definition upstreamFailed (r : Settled JsValue) : bool :=
  match r with
  | Rejected _ => true
  | Fulfilled (JArray _) => false
  | Fulfilled _ => true
  end.

(** The scenario of the specification: the generic lookup and the IPv6
    query answer for "api.example.com", the IPv4 query fails. *)
Definition scenarioNetwork : Handler :=
  fun X e =>
    match e in netE X return Settled X with
    | axios_get _ _ => Rejected (LibraryError "ECONNREFUSED" "connect failed")
    | dns_lookup _ _ => Fulfilled [{| address := "93.184.216.34"; family := 4 |}]
    | dns_resolve4 _ => Rejected (LibraryError "ENODATA" "queryA ENODATA")
    | dns_resolve6 _ => Fulfilled ["2606:2800:220:1:248:1893:25c8:1946"]
    end.

Section SchedulerVocabulary.
Context {A R : Type}.
Variable items : list A.
Variable mapper : nat -> A -> Called R.

(** The record owed to the item [x] at position [i]: [x] with the result
    of its call, or with the error the call threw or was rejected with. *)
Definition owedRecord (i : nat) (x : A) : Outcome A R :=
  match mapper i x with
  | Returned (Fulfilled result) => ResultRec x result
  | Returned (Rejected err) => ErrorRec x err
  | Threw err => ErrorRec x err
  end.

Fixpoint recordsFrom (i : nat) (l : list A) : list (Outcome A R) :=
  match l with
  | [] => []
  | x :: l' => owedRecord i x :: recordsFrom (S i) l'
  end.

(** One record per position of the input, in input order. *)
Definition expected : list (Outcome A R) := recordsFrom 0 items.

(** The mapper behaves as an [async] function: every call returns a
    promise. *)
Definition neverThrows : Prop :=
  forall i x, exists p, mapper i x = Returned p.

(** The records still owed by the suspended workers. *)
Definition owedBy (w : @Subfinder.Worker A R) : list (Outcome A R) :=
  match w with
  | Subfinder.Awaiting i x p => [settledRecord x p]
  | Subfinder.Done => []
  end.

Definition owed (ws : list (@Subfinder.Worker A R)) : list (Outcome A R) :=
  flat_map owedBy ws.

(** What holds of the shared state between two steps of the event loop:
    the calls made are those for the claimed indices, in input order; every
    claimed index has its record either pushed or owed by a suspended
    worker; a worker returns only after the input is exhausted. *)
Definition consistent (st : @Subfinder.State A R) : Prop :=
  Subfinder.invoked st = firstn (Subfinder.index st) items /\
  Permutation (Subfinder.out st ++ owed (Subfinder.workers st))
              (firstn (Subfinder.index st) expected) /\
  (In Subfinder.Done (Subfinder.workers st) ->
   List.length items <= Subfinder.index st).

End SchedulerVocabulary.

(** The batch scenario of the specification: three names, of which
    "b.example.com" always times out. *)
Definition batch : list string :=
  ["a.example.com"; "b.example.com"; "c.example.com"].

Definition batchMapper : nat -> string -> Called (list string) :=
  fun _ host =>
    if host =? "b.example.com"
    then Returned (Rejected (LibraryError "ETIMEOUT" "timed out"))
    else Returned (Fulfilled ["192.0.2.1"]).

(** A mapper that is not an [async] function and throws on
    "a.example.com" before returning. *)
Definition throwingMapper : nat -> string -> Called (list string) :=
  fun _ host =>
    if host =? "a.example.com"
    then Threw (TypeError "host is not resolvable")
    else Returned (Fulfilled ["192.0.2.1"]).

Definition batchNetwork : Handler :=
  fun X e =>
    match e in netE X return Settled X with
    | axios_get _ _ =>
        Fulfilled (JArray [JObject [("name_value",
                     JString (joinLines ["c.example.com"; "b.example.com";
                                         "a.example.com"]))]])
    | dns_lookup host _ =>
        if host =? "b.example.com"
        then Rejected (LibraryError "ETIMEOUT" "timed out")
        else Fulfilled [{| address := "192.0.2.1"; family := 4 |}]
    | dns_resolve4 host =>
        if host =? "b.example.com"
        then Rejected (LibraryError "ETIMEOUT" "timed out")
        else Fulfilled ["192.0.2.1"]
    | dns_resolve6 host => Rejected (LibraryError "ENODATA" "queryAaaa ENODATA")
    end.

(** What the loop of [main] prints for one live record. *)
Definition block (o : Outcome string (list string)) : list Line :=
  HostLine (item o) :: map AddressLine (Subfinder.ipsOf o).

(** The host names a console output shows, in order. *)
Definition hostLines (lines : list Line) : list string :=
  flat_map (fun l => match l with HostLine h => [h] | _ => [] end) lines.

(** The addresses printed right under a host line. *)
Fixpoint addressesOf (lines : list Line) : list string :=
  match lines with
  | AddressLine ip :: rest => ip :: addressesOf rest
  | _ => []
  end.

(** The mapping a console output shows: each host line with the addresses
    printed under it. *)
Fixpoint printedMapping (lines : list Line) : list (string * list string) :=
  match lines with
  | [] => []
  | HostLine h :: rest => (h, addressesOf rest) :: printedMapping rest
  | _ :: rest => printedMapping rest
  end.

(** The counts a console output states, each with its caption. *)
Definition summaryCounts (lines : list Line) : list (string * nat) :=
  flat_map (fun l => match l with InfoCount text n => [(text, n)] | _ => [] end) lines.

(** The entry of the final mapping that a record with addresses stands
    for. *)
Definition entry (o : Outcome string (list string)) : string * list string :=
  (item o, Subfinder.ipsOf o).

(** A collation that orders strings by their code units. *)
Definition codeUnitCompare (a b : string) : Z :=
  match String.compare a b with
  | Lt => (-1)%Z
  | Eq => 0%Z
  | Gt => 1%Z
  end.

(** What the scheduler hands over in the batch scenario, in completion
    order. *)
Definition batchResolved : list (Outcome string (list string)) :=
  [ ErrorRec "b.example.com" (LibraryError "ETIMEOUT" "timed out");
    ResultRec "c.example.com" ["192.0.2.3"];
    ResultRec "a.example.com" ["192.0.2.1"] ].

(** The candidate scenario of the specification: one certificate entry
    with four names. *)
Definition certNetwork : Handler :=
  fun X e =>
    match e in netE X return Settled X with
    | axios_get _ _ =>
        Fulfilled (JArray [JObject [("name_value",
                     JString (joinLines ["*.example.com"; "WWW.example.com ";
                                         "api.example.com"; "evilexample.com"]))]])
    | dns_lookup _ _ => Rejected (LibraryError "ENOTFOUND" "getaddrinfo ENOTFOUND")
    | dns_resolve4 _ => Rejected (LibraryError "ENOTFOUND" "queryA ENOTFOUND")
    | dns_resolve6 _ => Rejected (LibraryError "ENOTFOUND" "queryAaaa ENOTFOUND")
    end.

(** A string that does not begin with white space. *)
Definition startsClean (t : string) : Prop :=
  match t with
  | EmptyString => True
  | String c _ => isWhiteSpace c = false
  end.

(** The names [n] of an entry that the inner loop of subfinder.js goes
    through, when reading them does not throw. *)
Definition entryNames (entry : JsValue) : list string :=
  found (Subfinder.namesOf entry).

(** The call [dns.resolve4(sub)] as subdomain.js writes it. *)
Definition resolve4Call (sub : string) : Call :=
  {| callee := "dns.resolve4"; subject := sub; options := [] |}.

(** The names of a list for which the IPv4 query is fulfilled. *)
Definition resolved4 (h : Handler) (subdomains : list string) : list string :=
  filter (fun sub => isFulfilled (h _ (dns_resolve4 sub))) subdomains.

(** A certificate list with a [null] entry after a well-formed one. *)
Definition brokenNetwork : Handler :=
  fun X e =>
    match e in netE X return Settled X with
    | axios_get _ _ =>
        Fulfilled (JArray [JObject [("name_value", JString "api.example.com")];
                           JNull])
    | dns_lookup _ _ => Rejected (LibraryError "ENOTFOUND" "getaddrinfo ENOTFOUND")
    | dns_resolve4 _ => Rejected (LibraryError "ENOTFOUND" "queryA ENOTFOUND")
    | dns_resolve6 _ => Rejected (LibraryError "ENOTFOUND" "queryAaaa ENOTFOUND")
    end.

(** A certificate list in which one entry has no [name_value] field. *)
Definition sparseNetwork : Handler :=
  fun X e =>
    match e in netE X return Settled X with
    | axios_get _ _ =>
        Fulfilled (JArray [JObject [("name_value", JString "api.example.com")];
                           JObject [("common_name", JString "example.com")]])
    | dns_lookup _ _ => Rejected (LibraryError "ENOTFOUND" "getaddrinfo ENOTFOUND")
    | dns_resolve4 _ => Rejected (LibraryError "ENOTFOUND" "queryA ENOTFOUND")
    | dns_resolve6 _ => Rejected (LibraryError "ENOTFOUND" "queryAaaa ENOTFOUND")
    end.

(** A network whose certificate query answers with a given [res.data] and
    on which no name resolves. *)
Definition answering (data : JsValue) : Handler :=
  fun X e =>
    match e in netE X return Settled X with
    | axios_get _ _ => Fulfilled data
    | dns_lookup _ _ => Rejected (LibraryError "ENOTFOUND" "getaddrinfo ENOTFOUND")
    | dns_resolve4 _ => Rejected (LibraryError "ENOTFOUND" "queryA ENOTFOUND")
    | dns_resolve6 _ => Rejected (LibraryError "ENOTFOUND" "queryAaaa ENOTFOUND")
    end.

(** One turn of the loop of [resolveSubdomains] on the map. *)
Definition liveStep (h : Handler) (liveMap : list (string * list string))
  (sub : string) : list (string * list string) :=
  match h _ (dns_resolve4 sub) with
  | Fulfilled ips => DomainJs.Map_set sub ips liveMap
  | Rejected _ => liveMap
  end.

(** What [resolveSubdomains] prints for one name. *)
Definition resolvedLine (h : Handler) (sub : string) : list Line :=
  match h _ (dns_resolve4 sub) with
  | Fulfilled ips => [ResolvedLine sub ips]
  | Rejected _ => []
  end.

(** The map that subdomain.js builds for [batch] on [batchNetwork]. *)
Definition batchLive : list (string * list string) :=
  [("a.example.com", ["192.0.2.1"]); ("c.example.com", ["192.0.2.1"])].

(* ================================================================== *)
(** * Facts about the string operations *)
(* ================================================================== *)

Section StringFacts.

Lemma toLowerUnit_whitespace c : isWhiteSpace (toLowerUnit c) = isWhiteSpace c.
Proof. destruct c as [[] [] [] [] [] [] [] []]; reflexivity. Qed.

Lemma toLowerUnit_idem c : toLowerUnit (toLowerUnit c) = toLowerUnit c.
Proof. destruct c as [[] [] [] [] [] [] [] []]; reflexivity. Qed.



Lemma toLowerCase_idem s : toLowerCase (toLowerCase s) = toLowerCase s.
Proof.
  induction s as [|c s IH]; simpl; [reflexivity|].
  now rewrite toLowerUnit_idem, IH.
Qed.

Lemma toLowerCase_app s t :
  toLowerCase (s ++ t)%string = (toLowerCase s ++ toLowerCase t)%string.
Proof. induction s as [|c s IH]; simpl; [reflexivity|now rewrite IH]. Qed.

Lemma toLowerCase_trimStart s : toLowerCase (trimStart s) = trimStart (toLowerCase s).
Proof.
  induction s as [|c s IH]; simpl; [reflexivity|].
  rewrite toLowerUnit_whitespace.
  destruct (isWhiteSpace c); [exact IH|reflexivity].
Qed.

Lemma toLowerCase_empty s : toLowerCase s = EmptyString -> s = EmptyString.
Proof. destruct s; simpl; [reflexivity|discriminate]. Qed.

Lemma toLowerCase_trimEnd s : toLowerCase (trimEnd s) = trimEnd (toLowerCase s).
Proof.
  induction s as [|c s IH]; simpl; [reflexivity|].
  rewrite <- IH, toLowerUnit_whitespace.
  destruct (trimEnd s) as [|c' t] eqn:E; simpl.
  - destruct (isWhiteSpace c); reflexivity.
  - reflexivity.
Qed.

Lemma toLowerCase_trim s : toLowerCase (trim s) = trim (toLowerCase s).
Proof. unfold trim. now rewrite toLowerCase_trimEnd, toLowerCase_trimStart. Qed.


(** [endsWith] is the suffix relation. *)
Lemma endsWith_unfold s d :
  endsWith s d = (s =? d) || match s with
                            | EmptyString => false
                            | String _ s' => endsWith s' d
                            end.
Proof. destruct s; reflexivity. Qed.

Lemma endsWith_iff s d : endsWith s d = true <-> exists p, s = (p ++ d)%string.
Proof.
  induction s as [|c s IH]; rewrite endsWith_unfold.
  - rewrite orb_false_r, String.eqb_eq. split.
    + intros <-. now exists EmptyString.
    + intros [[|c p] H]; simpl in H; [auto|discriminate].
  - rewrite orb_true_iff, String.eqb_eq, IH. split.
    + intros [<-|[p ->]]; [now exists EmptyString|now exists (String c p)].
    + intros [[|c' p] H]; simpl in H; [left; auto|].
      injection H as -> ->. right. now exists p.
Qed.

Lemma endsWith_refl s : endsWith s s = true.
Proof. apply endsWith_iff. now exists EmptyString. Qed.

Lemma endsWith_app p d : endsWith (p ++ d)%string d = true.
Proof. apply endsWith_iff. now exists p. Qed.

Lemma endsWith_nonempty s d :
  endsWith s d = true -> d <> EmptyString -> s <> EmptyString.
Proof.
  intros H Hd ->. apply endsWith_iff in H as [[|c p] H]; simpl in H.
  - now subst d.
  - discriminate.
Qed.

Lemma trimStart_wildcard r :
  trimStart ("*." ++ r)%string = ("*." ++ r)%string.
Proof. reflexivity. Qed.

Lemma trimEnd_keeps c s :
  isWhiteSpace c = false -> trimEnd (String c s) = String c (trimEnd s).
Proof. intros H. simpl. rewrite H. now destruct (trimEnd s). Qed.

Lemma trim_wildcard r : trim ("*." ++ r)%string = ("*." ++ trimEnd r)%string.
Proof.
  unfold trim. rewrite trimStart_wildcard. simpl.
  change (trimEnd (String "*" (String "." r)) = String "*" (String "." (trimEnd r))).
  now rewrite !trimEnd_keeps.
Qed.

End StringFacts.

(* ================================================================== *)
(** * Name normalisation *)
(* ================================================================== *)

Lemma lowercase_trim s : toLowerCase s = s -> toLowerCase (trim s) = trim s.
Proof. intros H. now rewrite toLowerCase_trim, H. Qed.






(** Whatever the domain (given without trailing white space), the name
    made of ["evil"] glued to it is kept by subfinder.js. *)
Lemma normalize_evil_prefix (d : string) :
  trimEnd d = d ->
  Subfinder.normalize d ("evil" ++ d) = Some (toLowerCase ("evil" ++ d)).
Proof.
  intros Hd. unfold Subfinder.normalize, trim.
  change (trimStart ("evil" ++ d)%string) with ("evil" ++ d)%string.
  assert (Ht : trimEnd ("evil" ++ d)%string = ("evil" ++ d)%string).
  { change ("evil" ++ d)%string
      with (String "e" (String "v" (String "i" (String "l" d)))).
    rewrite !trimEnd_keeps by reflexivity. now rewrite Hd. }
  rewrite Ht. change (replaceWildcard ("evil" ++ d)%string) with ("evil" ++ d)%string.
  now rewrite endsWith_app.
Qed.

(** The capital-letter slip of subfinder.js: the suffix is tested before
    the name is lowercased, so a name in capitals is passed over, while
    subdomain.js lowercases first and keeps it. *)
Example normalize_capitals :
  Subfinder.normalize "example.com" "WWW.EXAMPLE.COM" = None /\
  DomainJs.normalize "example.com" "WWW.EXAMPLE.COM" = Some "www.example.com".
Proof. split; reflexivity. Qed.

(** C4: a candidate that begins with ["*."] loses exactly that one marker
    (the rest is kept as it is, a second marker included), and the suffix
    test and the stored name are those of the rest: the entry stands for
    its base name. *)
Theorem normalize_strips_one_wildcard (d r : string) :
  replaceWildcard (trim ("*." ++ r)%string) = trimEnd r /\
  Subfinder.normalize d ("*." ++ r) =
    (if endsWith (trimEnd r) d then Some (toLowerCase (trimEnd r)) else None).
Proof.
  assert (H : replaceWildcard (trim ("*." ++ r)%string) = trimEnd r)
    by now rewrite trim_wildcard.
  split; [exact H|].
  unfold Subfinder.normalize. now rewrite H.
Qed.

(** subdomain.js has no wildcard handling: the entry is kept as a literal
    host name. *)
Example normalize_wildcard_literal :
  DomainJs.normalize "example.com" "*.example.com" = Some "*.example.com" /\
  Subfinder.normalize "example.com" "*.example.com" = Some "example.com" /\
  Subfinder.normalize "example.com" "*.*.example.com" = Some "*.example.com".
Proof. repeat split; reflexivity. Qed.

(* ================================================================== *)
(** * Sets kept in insertion order *)
(* ================================================================== *)

Section SetFacts.

Lemma existsb_eqb_In x s : existsb (String.eqb x) s = true <-> In x s.
Proof.
  rewrite existsb_exists. split.
  - intros [y [Hy E]]. apply String.eqb_eq in E. now subst.
  - intros H. exists x. split; [exact H|apply String.eqb_refl].
Qed.

Lemma Set_add_In x y s : In x (Set_add y s) <-> x = y \/ In x s.
Proof.
  unfold Set_add. destruct (existsb (String.eqb y) s) eqn:E.
  - apply existsb_eqb_In in E. split; [auto|]. intros [->|H]; auto.
  - rewrite in_app_iff. simpl. intuition auto.
Qed.

Lemma Set_add_NoDup y s : NoDup s -> NoDup (Set_add y s).
Proof.
  intros H. unfold Set_add. destruct (existsb (String.eqb y) s) eqn:E; [exact H|].
  assert (Hn : ~ In y s).
  { intros Hin. apply existsb_eqb_In in Hin. congruence. }
  apply NoDup_app; [exact H|repeat constructor; auto|].
  intros a Ha [<-|[]]. now apply Hn.
Qed.

Lemma Set_addAll_In x xs s : In x (Set_addAll xs s) <-> In x xs \/ In x s.
Proof.
  unfold Set_addAll. revert s.
  induction xs as [|y xs IH]; intros s; simpl.
  - intuition auto.
  - rewrite IH, Set_add_In. intuition auto.
Qed.

Lemma Set_addAll_NoDup xs s : NoDup s -> NoDup (Set_addAll xs s).
Proof.
  unfold Set_addAll. revert s.
  induction xs as [|y xs IH]; intros s H; simpl; [exact H|].
  apply IH, Set_add_NoDup, H.
Qed.

End SetFacts.

(* ================================================================== *)
(** * resolveHost *)
(* ================================================================== *)

Section ResolveHost.
Variable h : Handler.
Variable host : string.

(** The value of a run: the three contributions added to the set in turn. *)
Lemma resolveHost_run :
  run h (Subfinder.resolveHost host) =
  Fulfilled
    (Set_addAll (found (h _ (dns_resolve6 host)))
       (Set_addAll (found (h _ (dns_resolve4 host)))
          (Set_addAll (map address (found (h _ (dns_lookup host lookupOptions)))) []))).
Proof.
  unfold Subfinder.resolveHost, lookupOptions. cbn.
  destruct (h _ (dns_lookup host [("all", JBool true)])) as [lk|e1]; cbn;
    destruct (h _ (dns_resolve4 host)) as [a|e2]; cbn;
    destruct (h _ (dns_resolve6 host)) as [aaaa|e3]; cbn; reflexivity.
Qed.

(** The calls of a run do not depend on how the earlier ones settled. *)
Lemma resolveHost_trace : trace h (Subfinder.resolveHost host) = strategyCalls host.
Proof.
  unfold Subfinder.resolveHost, strategyCalls, lookupOptions. cbn.
  destruct (h _ (dns_lookup host [("all", JBool true)])) as [lk|e1]; cbn;
    destruct (h _ (dns_resolve4 host)) as [a|e2]; cbn;
    destruct (h _ (dns_resolve6 host)) as [aaaa|e3]; cbn; reflexivity.
Qed.

Lemma resolveHost_silent : output h (Subfinder.resolveHost host) = [].
Proof.
  unfold Subfinder.resolveHost. cbn.
  destruct (h _ (dns_lookup host [("all", JBool true)])) as [lk|e1]; cbn;
    destruct (h _ (dns_resolve4 host)) as [a|e2]; cbn;
    destruct (h _ (dns_resolve6 host)) as [aaaa|e3]; cbn; reflexivity.
Qed.

End ResolveHost.

(** C3: a run of [resolveHost] is fulfilled with the union of what the
    three strategies found, each address once; a rejected strategy adds
    nothing and the others are still called and counted; when all three
    are rejected the result is the empty array. *)
Theorem resolveHost_union (h : Handler) (host : string) :
  exists ips,
    run h (Subfinder.resolveHost host) = Fulfilled ips /\
    NoDup ips /\
    (forall ip, In ip ips <->
       In ip (map address (found (h _ (dns_lookup host lookupOptions)))) \/
       In ip (found (h _ (dns_resolve4 host))) \/
       In ip (found (h _ (dns_resolve6 host)))) /\
    trace h (Subfinder.resolveHost host) = strategyCalls host /\
    (isFulfilled (h _ (dns_lookup host lookupOptions)) = false ->
     isFulfilled (h _ (dns_resolve4 host)) = false ->
     isFulfilled (h _ (dns_resolve6 host)) = false -> ips = []).
Proof.
  eexists. split; [apply resolveHost_run|]. repeat split.
  - repeat apply Set_addAll_NoDup. constructor.
  - rewrite !Set_addAll_In. simpl. tauto.
  - rewrite !Set_addAll_In. simpl. tauto.
  - apply resolveHost_trace.
  - intros H1 H2 H3.
    destruct (h _ (dns_lookup host lookupOptions)); [discriminate|].
    destruct (h _ (dns_resolve4 host)); [discriminate|].
    destruct (h _ (dns_resolve6 host)); [discriminate|].
    reflexivity.
Qed.

Lemma resolveHost_union_witness :
  exists ips,
    run deadNetwork (Subfinder.resolveHost "api.example.com") = Fulfilled ips /\
    ips = [].
Proof.
  destruct (resolveHost_union deadNetwork "api.example.com")
    as [ips [Hrun [_ [_ [_ Hall]]]]].
  exists ips. split; [exact Hrun|].
  apply Hall; reflexivity.
Defined.

(** The merge scenario of the specification. *)
Example resolveHost_scenario :
  run scenarioNetwork (Subfinder.resolveHost "api.example.com") =
  Fulfilled ["93.184.216.34"; "2606:2800:220:1:248:1893:25c8:1946"].
Proof. reflexivity. Qed.

(** ** Time limits *)

Lemma resolveLoop_trace (h : Handler) (subdomains : list string) liveMap :
  trace h (DomainJs.resolveLoop subdomains liveMap) =
  map (fun sub => {| callee := "dns.resolve4"; subject := sub; options := [] |})
      subdomains.
Proof.
  revert liveMap. induction subdomains as [|sub rest IH]; intros liveMap.
  - reflexivity.
  - cbn. destruct (h _ (dns_resolve4 sub)) as [ips|err]; cbn; now rewrite IH.
Qed.

Lemma fetchSubdomains_trace (h : Handler) (domain : string) :
  trace h (Subfinder.fetchSubdomains domain) =
  [ {| callee := "axios.get"; subject := Subfinder.fetchUrl domain;
       options := Subfinder.fetchConfig |} ].
Proof.
  unfold Subfinder.fetchSubdomains.
  remember (Subfinder.fetchUrl domain) as url.
  remember Subfinder.fetchConfig as config.
  cbn. destruct (h _ (axios_get url config)) as [d|e]; cbn.
  - destruct (Subfinder.collect domain d); reflexivity.
  - reflexivity.
Qed.

(** C9, as stated, fails: the calls of [resolveHost] carry no time limit. *)
Lemma resolveHost_calls_lack_timeout :
  ~ (forall c, In c (trace deadNetwork (Subfinder.resolveHost "b.example.com")) ->
               hasTimeout c = true).
Proof.
  intros H.
  specialize (H {| callee := "dns.lookup"; subject := "b.example.com";
                   options := lookupOptions |} (or_introl eq_refl)).
  discriminate H.
Qed.

(** C9, amended: no strategy call is given a time limit by either script
    (only the HTTP query has one); a strategy call that is rejected, by a
    time-out of the DNS library as by any other error, contributes no
    address and the remaining strategies still run. *)
Theorem strategy_calls_untimed (h : Handler) (host : string) (subdomains : list string) :
  Forall (fun c => hasTimeout c = false) (trace h (Subfinder.resolveHost host)) /\
  Forall (fun c => hasTimeout c = false) (trace h (DomainJs.resolveSubdomains subdomains)) /\
  Forall (fun c => hasTimeout c = true) (trace h (Subfinder.fetchSubdomains host)) /\
  trace h (Subfinder.resolveHost host) = strategyCalls host /\
  run h (Subfinder.resolveHost host) =
    Fulfilled (Set_addAll (found (h _ (dns_resolve6 host)))
                (Set_addAll (found (h _ (dns_resolve4 host)))
                   (Set_addAll (map address (found (h _ (dns_lookup host lookupOptions)))) []))).
Proof.
  repeat split.
  - rewrite resolveHost_trace. repeat constructor.
  - unfold DomainJs.resolveSubdomains. rewrite resolveLoop_trace.
    apply Forall_forall. intros c Hc. apply in_map_iff in Hc as [sub [<- _]].
    reflexivity.
  - rewrite fetchSubdomains_trace. repeat constructor.
  - apply resolveHost_trace.
  - apply resolveHost_run.
Qed.

(* ================================================================== *)
(** * fetchSubdomains *)
(* ================================================================== *)

Lemma subfinder_fetch_run (h : Handler) (domain : string) :
  run h (Subfinder.fetchSubdomains domain) =
  match h _ (axios_get (Subfinder.fetchUrl domain) Subfinder.fetchConfig) with
  | Fulfilled data => match Subfinder.collect domain data with
                      | Fulfilled subs => Fulfilled subs
                      | Rejected _ => Fulfilled []
                      end
  | Rejected _ => Fulfilled []
  end.
Proof.
  unfold Subfinder.fetchSubdomains.
  remember (Subfinder.fetchUrl domain) as url.
  remember Subfinder.fetchConfig as config.
  cbn. destruct (h _ (axios_get url config)) as [d|e]; cbn.
  - destruct (Subfinder.collect domain d); reflexivity.
  - reflexivity.
Qed.

Lemma domainjs_fetch_run (h : Handler) (domain : string) :
  run h (DomainJs.fetchSubdomains domain) =
  match h _ (axios_get (DomainJs.fetchUrl domain) [("timeout", JNumber 20000)]) with
  | Fulfilled data => match DomainJs.collect domain data with
                      | Fulfilled subs => Fulfilled subs
                      | Rejected _ => Fulfilled []
                      end
  | Rejected _ => Fulfilled []
  end.
Proof.
  unfold DomainJs.fetchSubdomains.
  remember (DomainJs.fetchUrl domain) as url.
  cbn. destruct (h _ (axios_get url _)) as [d|e]; cbn.
  - destruct (DomainJs.collect domain d); reflexivity.
  - reflexivity.
Qed.

Lemma subfinder_collect_not_array (domain : string) (data : JsValue) :
  upstreamFailed (Fulfilled data) = true ->
  Subfinder.collect domain data = Fulfilled [].
Proof. destruct data; simpl; intros H; try reflexivity; discriminate. Qed.

(** A string is iterated character by character, and the first character
    already has no [name_value] to split. *)
Lemma domainjs_collect_not_array (domain : string) (data : JsValue) :
  upstreamFailed (Fulfilled data) = true ->
  DomainJs.collect domain data = Fulfilled [] \/
  exists err, DomainJs.collect domain data = Rejected err.
Proof.
  destruct data as [| | b | z | str | elements | fields]; simpl; intros H;
    try discriminate; try (right; eexists; reflexivity).
  destruct str as [|c str]; [left; reflexivity|right]. cbn. eauto.
Qed.

(** C7: the promise of [fetchSubdomains] is always fulfilled, in both
    scripts, and with the empty list whenever the upstream query failed;
    [main] then reports zero names and stops. *)
Theorem fetchSubdomains_contained (h : Handler) (domain : string) :
  (exists subs,
     run h (Subfinder.fetchSubdomains domain) = Fulfilled subs /\
     (upstreamFailed (h _ (axios_get (Subfinder.fetchUrl domain) Subfinder.fetchConfig)) = true ->
      subs = [] /\
      forall localeCompare sched,
        Subfinder.main localeCompare domain h sched =
        InfoName "[+] Fetching subdomains for: #" domain ::
        output h (Subfinder.fetchSubdomains domain) ++
        [InfoCount "[+] Found # unique subdomains." 0;
         Info "[!] No subdomains found."])) /\
  (exists subs,
     run h (DomainJs.fetchSubdomains domain) = Fulfilled subs /\
     (upstreamFailed (h _ (axios_get (DomainJs.fetchUrl domain) [("timeout", JNumber 20000)])) = true ->
      subs = [])).
Proof.
  split.
  - assert (Hsub : forall subs,
               run h (Subfinder.fetchSubdomains domain) = Fulfilled subs ->
               subs = [] ->
               forall localeCompare sched,
                 Subfinder.main localeCompare domain h sched =
                 InfoName "[+] Fetching subdomains for: #" domain ::
                 output h (Subfinder.fetchSubdomains domain) ++
                 [InfoCount "[+] Found # unique subdomains." 0;
                  Info "[!] No subdomains found."]).
    { intros subs Hrun -> cmp sched. unfold Subfinder.main. now rewrite Hrun. }
    pose proof (subfinder_fetch_run h domain) as Hrun.
    destruct (h _ (axios_get (Subfinder.fetchUrl domain) Subfinder.fetchConfig))
      as [data|err] eqn:E.
    + destruct (Subfinder.collect domain data) as [subs|err] eqn:Ec.
      * exists subs. split; [exact Hrun|]. intros Hf.
        rewrite (subfinder_collect_not_array domain data Hf) in Ec.
        injection Ec as <-. split; [reflexivity|]. now apply Hsub with (subs := []).
      * exists []. split; [exact Hrun|]. intros _. split; [reflexivity|].
        now apply Hsub with (subs := []).
    + exists []. split; [exact Hrun|]. intros _. split; [reflexivity|].
      now apply Hsub with (subs := []).
  - pose proof (domainjs_fetch_run h domain) as Hrun.
    destruct (h _ (axios_get (DomainJs.fetchUrl domain) [("timeout", JNumber 20000)]))
      as [data|err] eqn:E.
    + destruct (DomainJs.collect domain data) as [subs|err] eqn:Ec.
      * exists subs. split; [exact Hrun|]. intros Hf.
        destruct (domainjs_collect_not_array domain data Hf) as [H|[err H]];
          rewrite H in Ec; [now injection Ec as <-|discriminate].
      * exists []. split; [exact Hrun|]. now intros _.
    + exists []. split; [exact Hrun|]. now intros _.
Qed.

Lemma fetchSubdomains_contained_witness :
  upstreamFailed (scenarioNetwork _ (axios_get (Subfinder.fetchUrl "example.com")
                                               Subfinder.fetchConfig)) = true /\
  exists subs,
    run scenarioNetwork (Subfinder.fetchSubdomains "example.com") = Fulfilled subs /\
    subs = [].
Proof.
  split; [reflexivity|].
  destruct (fetchSubdomains_contained scenarioNetwork "example.com")
    as [[subs [Hrun Hfail]] _].
  exists subs. split; [exact Hrun|].
  apply Hfail. reflexivity.
Defined.

(* ================================================================== *)
(** * concurrencyMap *)
(* ================================================================== *)

Section ListFacts.
Context {T : Type}.

Lemma firstn_succ (l : list T) i x :
  nth_error l i = Some x -> firstn (S i) l = firstn i l ++ [x].
Proof.
  revert i. induction l as [|y l IH]; intros [|i] H; simpl in *; try discriminate.
  - now injection H as ->.
  - now rewrite (IH i H).
Qed.

Lemma firstn_past (l : list T) i :
  nth_error l i = None -> firstn (S i) l = firstn i l.
Proof.
  intros H. apply nth_error_None in H.
  rewrite !firstn_all2 by lia. reflexivity.
Qed.

Lemma setNth_length (l : list T) n x : List.length (setNth n x l) = List.length l.
Proof.
  revert n. induction l as [|y l IH]; intros [|n]; simpl; auto.
Qed.

Lemma setNth_In (l : list T) n x y : In y (setNth n x l) -> y = x \/ In y l.
Proof.
  revert n. induction l as [|z l IH]; intros [|n]; simpl; try tauto.
  - intros [<-|H]; auto.
  - intros [<-|H]; auto. destruct (IH n H); auto.
Qed.

Lemma skipn_head (l : list T) i x r :
  skipn i l = x :: r -> nth_error l i = Some x /\ skipn (S i) l = r.
Proof.
  revert i. induction l as [|y l IH]; intros [|i] H; simpl in *; try discriminate.
  - injection H as -> ->. now split.
  - exact (IH i H).
Qed.

Lemma skipn_nil_length (l : list T) i : skipn i l = [] -> List.length l <= i.
Proof.
  revert i. induction l as [|y l IH]; intros [|i] H; simpl in *; try discriminate.
  - lia.
  - lia.
  - specialize (IH i H). lia.
Qed.

Lemma In_firstn (l : list T) n x : In x (firstn n l) -> In x l.
Proof.
  intros H. rewrite <- (firstn_skipn n l). apply in_or_app. now left.
Qed.

Lemma setNth_nth_error (l : list T) n x :
  n < List.length l -> nth_error (setNth n x l) n = Some x.
Proof.
  revert n. induction l as [|y l IH]; intros [|n] H; simpl in *; try lia; auto.
  apply IH. lia.
Qed.

End ListFacts.

Section SchedulerFacts.
Context {A R : Type}.
Variable items : list A.
Variable mapper : nat -> A -> Called R.
Variable concurrency : nat.

Local Notation "'State'" := (@Subfinder.State A R).
Local Notation "'Worker'" := (@Subfinder.Worker A R).
Local Notation "'N'" := (List.length items).

Lemma recordsFrom_length k (l : list A) :
  List.length (recordsFrom mapper k l) = List.length l.
Proof. revert k. induction l as [|x l IH]; intros k; simpl; auto. Qed.

Lemma recordsFrom_nth k (l : list A) i x :
  nth_error l i = Some x ->
  nth_error (recordsFrom mapper k l) i = Some (owedRecord mapper (k + i) x).
Proof.
  revert k i. induction l as [|y l IH]; intros k [|i] H; simpl in *; try discriminate.
  - injection H as ->. now rewrite Nat.add_0_r.
  - rewrite (IH (S k) i H). f_equal. f_equal. lia.
Qed.

Lemma owedRecord_item i x : item (owedRecord mapper i x) = x.
Proof. unfold owedRecord. now destruct (mapper i x) as [err|[result|err]]. Qed.

Lemma recordsFrom_item k (l : list A) : map item (recordsFrom mapper k l) = l.
Proof.
  revert k. induction l as [|x l IH]; intros k; simpl; [reflexivity|].
  now rewrite IH, owedRecord_item.
Qed.

Lemma recordsFrom_In k (l : list A) o :
  In o (recordsFrom mapper k l) -> exists i x, In x l /\ o = owedRecord mapper i x.
Proof.
  revert k. induction l as [|y l IH]; intros k; simpl; [tauto|].
  intros [<-|H].
  - exists k, y. auto.
  - destruct (IH _ H) as (i & x & Hin & ->). exists i, x. auto.
Qed.

Lemma expected_length : List.length (expected items mapper) = N.
Proof. apply recordsFrom_length. Qed.

Lemma owed_app (ws1 ws2 : list Worker) :
  owed (ws1 ++ ws2) = owed ws1 ++ owed ws2.
Proof. unfold owed. apply flat_map_app. Qed.

Lemma owed_length (ws : list Worker) :
  List.length (owed ws) = List.length (filter Subfinder.isAwaiting ws).
Proof.
  induction ws as [|[i x p|] ws IH]; simpl; auto.
Qed.

(** Replacing the worker at position [w] trades what it owed for what its
    successor owes. *)
Lemma owed_setNth (ws : list Worker) w old new :
  nth_error ws w = Some old ->
  Permutation (owedBy old ++ owed (setNth w new ws))
              (owedBy new ++ owed ws).
Proof.
  revert w. induction ws as [|y ws IH]; intros [|w] H; simpl in *; try discriminate.
  - injection H as ->. apply Permutation_app_swap_app.
  - specialize (IH w H).
    rewrite !(Permutation_app_swap_app _ (owedBy y)).
    now apply Permutation_app_head.
Qed.

Lemma perm_shuffle (a b c d : list (Outcome A R)) :
  Permutation ((a ++ b) ++ c ++ d) ((a ++ c) ++ b ++ d).
Proof.
  rewrite <- !app_assoc. apply Permutation_app_head.
  rewrite !app_assoc. apply Permutation_app_tail. apply Permutation_app_comm.
Qed.

(** One pass of a worker through the loop, up to its next suspension or
    its return: it claims at least one index; the records it pushes on
    the way and the one it suspends on are those owed to the indices it
    claimed. *)
Lemma turn_spec (rest : list A) : forall st : State,
  rest = skipn (Subfinder.index st) items ->
  let (st', w) := Subfinder.turn mapper rest st in
  Subfinder.index st < Subfinder.index st' /\
  Subfinder.workers st' = Subfinder.workers st /\
  (Subfinder.invoked st = firstn (Subfinder.index st) items ->
   Subfinder.invoked st' = firstn (Subfinder.index st') items) /\
  (exists pushed,
     Subfinder.out st' = Subfinder.out st ++ pushed /\
     firstn (Subfinder.index st') (expected items mapper) =
       firstn (Subfinder.index st) (expected items mapper) ++ pushed ++ owedBy w) /\
  (w = Subfinder.Done -> N <= Subfinder.index st').
Proof.
  induction rest as [|x rest IH]; intros st Hrest.
  - symmetry in Hrest. apply skipn_nil_length in Hrest.
    cbn [Subfinder.turn Subfinder.index Subfinder.out Subfinder.workers
         Subfinder.invoked owedBy].
    split; [lia|]. split; [reflexivity|]. split; [|split].
    + intros ->. rewrite !firstn_all2 by lia. reflexivity.
    + exists []. split; [now rewrite app_nil_r|].
      rewrite !firstn_all2 by (rewrite expected_length; lia).
      now rewrite app_nil_r.
    + intros _. lia.
  - symmetry in Hrest. apply skipn_head in Hrest as [Hnth Hskip].
    assert (Hexp : firstn (S (Subfinder.index st)) (expected items mapper) =
                   firstn (Subfinder.index st) (expected items mapper) ++
                   [owedRecord mapper (Subfinder.index st) x]).
    { apply firstn_succ. unfold expected.
      now rewrite (recordsFrom_nth 0 items _ _ Hnth). }
    cbn [Subfinder.turn].
    destruct (mapper (Subfinder.index st) x) as [err|p] eqn:Em.
    + match goal with |- context [Subfinder.turn mapper rest ?s] =>
        specialize (IH s); destruct (Subfinder.turn mapper rest s) as [st' w] end.
      cbn [Subfinder.index Subfinder.out Subfinder.workers Subfinder.invoked] in IH.
      destruct (IH (eq_sym Hskip)) as (Hi & Hw & Hinv & (pushed & Ho & He) & Hdone).
      split; [lia|]. split; [exact Hw|]. split; [|split].
      * intros E. apply Hinv. rewrite E. symmetry. now apply firstn_succ.
      * exists (ErrorRec x err :: pushed). split.
        { rewrite Ho, <- app_assoc. reflexivity. }
        rewrite He, Hexp, <- app_assoc. unfold owedRecord. rewrite Em. reflexivity.
      * exact Hdone.
    + cbn [Subfinder.index Subfinder.out Subfinder.workers Subfinder.invoked owedBy].
      split; [lia|]. split; [reflexivity|]. split; [|split].
      * intros ->. symmetry. now apply firstn_succ.
      * exists []. split; [now rewrite app_nil_r|].
        rewrite Hexp. unfold owedRecord. rewrite Em. now destruct p.
      * discriminate.
Qed.

Lemma enterLoop_spec (st : State) :
  let (st', w) := Subfinder.enterLoop items mapper st in
  Subfinder.index st < Subfinder.index st' /\
  Subfinder.workers st' = Subfinder.workers st /\
  (Subfinder.invoked st = firstn (Subfinder.index st) items ->
   Subfinder.invoked st' = firstn (Subfinder.index st') items) /\
  (exists pushed,
     Subfinder.out st' = Subfinder.out st ++ pushed /\
     firstn (Subfinder.index st') (expected items mapper) =
       firstn (Subfinder.index st) (expected items mapper) ++ pushed ++ owedBy w) /\
  (w = Subfinder.Done -> N <= Subfinder.index st').
Proof. exact (turn_spec _ st eq_refl). Qed.

Lemma spawn_spec k (st : State) :
  consistent items mapper st ->
  consistent items mapper (Subfinder.spawn items mapper k st) /\
  List.length (Subfinder.workers (Subfinder.spawn items mapper k st)) =
    List.length (Subfinder.workers st) + k /\
  exists pushed,
    Subfinder.out (Subfinder.spawn items mapper k st) = Subfinder.out st ++ pushed.
Proof.
  revert st. induction k as [|k IH]; intros st Hc; simpl.
  - split; [exact Hc|split; [lia|]]. exists []. now rewrite app_nil_r.
  - pose proof (enterLoop_spec st) as Hs.
    destruct (Subfinder.enterLoop items mapper st) as [st' w].
    destruct Hs as (Hi & Hw & Hinv & (pushed & Ho & Hexp) & Hdone).
    destruct Hc as (Hc1 & Hc2 & Hc3).
    match goal with |- context [Subfinder.spawn items mapper k ?s] =>
      destruct (IH s) as (H1 & H2 & (pushed' & H3)) end.
    { unfold consistent.
      cbn [Subfinder.index Subfinder.out Subfinder.workers Subfinder.invoked].
      rewrite Ho, Hw. split; [|split].
      - auto.
      - rewrite Hexp, owed_app. cbn [owed flat_map]. rewrite app_nil_r.
        rewrite perm_shuffle. now apply Permutation_app_tail.
      - intros Hin. apply in_app_or in Hin as [Hin|[Heq|[]]].
        + specialize (Hc3 Hin). lia.
        + specialize (Hdone Heq). lia. }
    split; [exact H1|split].
    + rewrite H2. cbn [Subfinder.workers]. rewrite length_app, Hw. simpl. lia.
    + rewrite H3. cbn [Subfinder.out]. rewrite Ho, <- app_assoc. eauto.
Qed.

Lemma start_spec :
  consistent items mapper (Subfinder.start items mapper concurrency) /\
  List.length (Subfinder.workers (Subfinder.start items mapper concurrency)) = concurrency.
Proof.
  unfold Subfinder.start.
  match goal with |- context [Subfinder.spawn items mapper _ ?s] =>
    destruct (spawn_spec concurrency s) as (H1 & H2 & _) end.
  - unfold consistent. simpl. split; [reflexivity|split; [constructor|tauto]].
  - split; [exact H1|exact H2].
Qed.

Lemma resume_spec w (st st' : State) :
  consistent items mapper st ->
  Subfinder.resume items mapper w st = Some st' ->
  consistent items mapper st' /\
  List.length (Subfinder.workers st') = List.length (Subfinder.workers st) /\
  exists i x p pushed,
    nth_error (Subfinder.workers st) w = Some (Subfinder.Awaiting i x p) /\
    Subfinder.out st' = Subfinder.out st ++ settledRecord x p :: pushed.
Proof.
  intros (Hc1 & Hc2 & Hc3) Hr. unfold Subfinder.resume in Hr.
  destruct (nth_error (Subfinder.workers st) w) as [[i x p|]|] eqn:Ew; try discriminate.
  match type of Hr with context [Subfinder.enterLoop items mapper ?s] =>
    pose proof (enterLoop_spec s) as Hs;
    destruct (Subfinder.enterLoop items mapper s) as [st2 wk] end.
  cbn [Subfinder.index Subfinder.out Subfinder.workers Subfinder.invoked] in Hs.
  destruct Hs as (Hi & Hw & Hinv & (pushed & Ho & Hexp) & Hdone).
  injection Hr as <-.
  unfold consistent. cbn [Subfinder.index Subfinder.out Subfinder.workers Subfinder.invoked].
  rewrite Ho, Hw. split; [split; [|split]|split].
  - auto.
  - rewrite Hexp. rewrite <- Hc2.
    rewrite <- !app_assoc. apply Permutation_app_head.
    change ([settledRecord x p] ++ pushed ++ owed (setNth w wk (Subfinder.workers st)))
      with (owedBy (Subfinder.Awaiting i x p) ++
            pushed ++ owed (setNth w wk (Subfinder.workers st))).
    rewrite (Permutation_app_swap_app (owedBy (Subfinder.Awaiting i x p)) pushed).
    rewrite (owed_setNth _ _ _ wk Ew).
    rewrite (Permutation_app_swap_app pushed (owedBy wk)).
    rewrite (Permutation_app_comm (owed (Subfinder.workers st))).
    rewrite <- !app_assoc.
    rewrite (Permutation_app_swap_app (owedBy wk) pushed).
    reflexivity.
  - intros Hin. apply setNth_In in Hin as [Hin|Hin].
    + specialize (Hdone (eq_sym Hin)). lia.
    + specialize (Hc3 Hin). lia.
  - apply setNth_length.
  - exists i, x, p, pushed. split; [reflexivity|]. now rewrite <- app_assoc.
Qed.

Lemma reachable_spec (st : State) :
  Subfinder.reachable items mapper concurrency st ->
  consistent items mapper st /\ List.length (Subfinder.workers st) = concurrency.
Proof.
  induction 1 as [|st st' Hreach [IH1 IH2] Hstep].
  - exact start_spec.
  - destruct Hstep as [w st st' Hr].
    destruct (resume_spec w st st' IH1 Hr) as (H1 & H2 & _).
    split; [exact H1|congruence].
Qed.

(** Pushed plus in flight is what has been claimed from the input. *)
Lemma consistent_counts (st : State) :
  consistent items mapper st ->
  List.length (Subfinder.out st) + Subfinder.inFlight st = Nat.min (Subfinder.index st) N /\
  List.length (Subfinder.invoked st) = Nat.min (Subfinder.index st) N.
Proof.
  intros (Hc1 & Hc2 & _). split.
  - apply Permutation_length in Hc2.
    rewrite length_app, owed_length, length_firstn, expected_length in Hc2.
    exact Hc2.
  - rewrite Hc1. apply length_firstn.
Qed.

Lemma allDone_inFlight (st : State) :
  Subfinder.allDone st = true <-> Subfinder.inFlight st = 0.
Proof.
  unfold Subfinder.allDone, Subfinder.inFlight.
  induction (Subfinder.workers st) as [|[i x p|] ws IH]; simpl.
  - tauto.
  - split; discriminate.
  - exact IH.
Qed.

Lemma allDone_owed (st : State) :
  Subfinder.allDone st = true -> owed (Subfinder.workers st) = [].
Proof.
  unfold Subfinder.allDone.
  induction (Subfinder.workers st) as [|[i x p|] ws IH]; simpl; auto; discriminate.
Qed.

Lemma allDone_In (st : State) :
  0 < List.length (Subfinder.workers st) ->
  Subfinder.allDone st = true -> In Subfinder.Done (Subfinder.workers st).
Proof.
  unfold Subfinder.allDone.
  destruct (Subfinder.workers st) as [|[i x p|] ws]; simpl; try lia; try discriminate.
  auto.
Qed.

(** When every worker has returned, the array holds the owed records and
    nothing else, and the mapper was called on the items in input order. *)
Lemma finished_spec (st : State) :
  consistent items mapper st ->
  0 < List.length (Subfinder.workers st) ->
  Subfinder.allDone st = true ->
  Permutation (Subfinder.out st) (expected items mapper) /\
  Subfinder.invoked st = items.
Proof.
  intros (Hc1 & Hc2 & Hc3) Hk Hd.
  specialize (Hc3 (allDone_In st Hk Hd)).
  rewrite (allDone_owed st Hd), app_nil_r in Hc2.
  rewrite firstn_all2 in Hc2 by (rewrite expected_length; lia).
  rewrite firstn_all2 in Hc1 by lia.
  now split.
Qed.

(** ** Which worker resumes *)

Lemma idsFrom_length k (ws : list Worker) :
  List.length (Subfinder.idsFrom k ws) = List.length (filter Subfinder.isAwaiting ws).
Proof.
  revert k. induction ws as [|[i x p|] ws IH]; intros k; simpl; auto.
Qed.

Lemma idsFrom_In k (ws : list Worker) w :
  In w (Subfinder.idsFrom k ws) <->
  k <= w /\ exists i x p, nth_error ws (w - k) = Some (Subfinder.Awaiting i x p).
Proof.
  revert k. induction ws as [|wk ws IH]; intros k; simpl.
  - split; [tauto|]. intros [_ (i & x & p & H)]. destruct (w - k); discriminate.
  - rewrite in_app_iff, IH. split.
    + intros [Hin|[Hle (i & x & p & H)]].
      * destruct wk as [i x p|]; simpl in Hin; [|tauto].
        destruct Hin as [<-|[]]. split; [lia|]. rewrite Nat.sub_diag. simpl. eauto.
      * split; [lia|]. exists i, x, p.
        replace (w - k) with (S (w - S k)) by lia. exact H.
    + intros [Hle (i & x & p & H)].
      destruct (Nat.eq_dec w k) as [->|Hne].
      * left. rewrite Nat.sub_diag in H. simpl in H. injection H as ->. simpl. auto.
      * right. split; [lia|]. exists i, x, p.
        replace (w - k) with (S (w - S k)) in H by lia. exact H.
Qed.

Lemma awaitingIds_length (st : State) :
  List.length (Subfinder.awaitingIds st) = Subfinder.inFlight st.
Proof. apply idsFrom_length. Qed.

Lemma resume_enabled w (st : State) i x p :
  nth_error (Subfinder.workers st) w = Some (Subfinder.Awaiting i x p) ->
  exists st', Subfinder.resume items mapper w st = Some st'.
Proof.
  intros H. unfold Subfinder.resume. rewrite H.
  match goal with |- context [Subfinder.enterLoop items mapper ?s] =>
    destruct (Subfinder.enterLoop items mapper s) end.
  eauto.
Qed.

(** A settlement either finds nothing in flight and changes nothing, or
    is a step of the event loop. *)
Lemma settleNext_spec n (st : State) :
  (Subfinder.inFlight st = 0 /\ Subfinder.settleNext items mapper n st = st) \/
  (0 < Subfinder.inFlight st /\
   Subfinder.step items mapper st (Subfinder.settleNext items mapper n st)).
Proof.
  unfold Subfinder.settleNext.
  pose proof (awaitingIds_length st) as Hlen.
  destruct (Subfinder.awaitingIds st) as [|w0 ids] eqn:E.
  - left. split; [now rewrite <- Hlen|]. simpl. now destruct n.
  - right. split; [rewrite <- Hlen; simpl; lia|].
    set (l := w0 :: ids) in *.
    assert (Hlt : n mod List.length l < List.length l)
      by (apply Nat.mod_upper_bound; discriminate).
    destruct (nth_error l (n mod List.length l)) as [w|] eqn:En.
    + assert (Hin : In w (Subfinder.awaitingIds st)).
      { rewrite E. eapply nth_error_In; eauto. }
      apply idsFrom_In in Hin as [_ (i & x & p & Hw)]. rewrite Nat.sub_0_r in Hw.
      destruct (resume_enabled w st i x p Hw) as [st' Hr].
      rewrite Hr. now apply Subfinder.step_resume with (w := w).
    + apply nth_error_None in En. lia.
Qed.

(** Every step of the event loop is the settlement some number picks. *)
Lemma step_settleNext (st st' : State) :
  Subfinder.step items mapper st st' ->
  exists n, Subfinder.settleNext items mapper n st = st'.
Proof.
  intros [w st0 st0' Hr].
  assert (Hin : In w (Subfinder.awaitingIds st0)).
  { unfold Subfinder.resume in Hr.
    destruct (nth_error (Subfinder.workers st0) w) as [[i x p|]|] eqn:Ew; try discriminate.
    apply idsFrom_In. split; [lia|]. rewrite Nat.sub_0_r. eauto. }
  apply In_nth_error in Hin as [n Hn].
  exists n. unfold Subfinder.settleNext.
  assert (Hlt : n < List.length (Subfinder.awaitingIds st0)).
  { apply nth_error_Some. congruence. }
  rewrite Nat.mod_small by exact Hlt.
  now rewrite Hn, Hr.
Qed.

Lemma exec_snoc sched n :
  Subfinder.exec items mapper concurrency (sched ++ [n]) =
  Subfinder.settleNext items mapper n (Subfinder.exec items mapper concurrency sched).
Proof. unfold Subfinder.exec. now rewrite fold_left_app. Qed.

Lemma settle_reachable n (st : State) :
  Subfinder.reachable items mapper concurrency st ->
  Subfinder.reachable items mapper concurrency (Subfinder.settleNext items mapper n st).
Proof.
  intros H. destruct (settleNext_spec n st) as [[_ ->]|[_ Hs]]; [exact H|].
  eapply Subfinder.reach_step; eauto.
Qed.

Lemma exec_reachable sched :
  Subfinder.reachable items mapper concurrency
    (Subfinder.exec items mapper concurrency sched).
Proof.
  induction sched as [|n sched IH] using rev_ind.
  - apply Subfinder.reach_start.
  - rewrite exec_snoc. now apply settle_reachable.
Qed.

(** The settlement orders cover every run of the event loop. *)
Lemma reachable_exec (st : State) :
  Subfinder.reachable items mapper concurrency st ->
  exists sched, Subfinder.exec items mapper concurrency sched = st.
Proof.
  induction 1 as [|st st' _ [sched IH] Hstep].
  - now exists [].
  - destruct (step_settleNext st st' Hstep) as [n Hn].
    exists (sched ++ [n]). now rewrite exec_snoc, IH.
Qed.

(** ** Completion *)

(** Each step pushes the record of the promise that settled, and after it
    the error records of the calls that threw in the same turn. *)
Lemma step_out (st st' : State) :
  consistent items mapper st ->
  Subfinder.step items mapper st st' ->
  exists o pushed, Subfinder.out st' = Subfinder.out st ++ o :: pushed.
Proof.
  intros Hc Hs. destruct Hs as [w st st' Hr].
  destruct (resume_spec w st st' Hc Hr) as (_ & _ & i & x & p & pushed & _ & ->).
  eauto.
Qed.

Lemma step_grows (st st' : State) :
  consistent items mapper st ->
  Subfinder.step items mapper st st' ->
  List.length (Subfinder.out st) < List.length (Subfinder.out st').
Proof.
  intros Hc Hs. destruct (step_out st st' Hc Hs) as (o & pushed & ->).
  rewrite length_app. simpl. lia.
Qed.

Lemma idle_complete (st : State) :
  Subfinder.reachable items mapper concurrency st ->
  0 < concurrency ->
  Subfinder.inFlight st = 0 ->
  List.length (Subfinder.out st) = N.
Proof.
  intros Hreach Hk Hidle.
  destruct (reachable_spec st Hreach) as [Hc Hw].
  destruct (finished_spec st Hc) as [Hp _]; [lia|now apply allDone_inFlight|].
  apply Permutation_length in Hp. now rewrite expected_length in Hp.
Qed.

Lemma settle_all sched : forall st : State,
  Subfinder.reachable items mapper concurrency st ->
  0 < concurrency ->
  N - List.length (Subfinder.out st) <= List.length sched ->
  Subfinder.allDone
    (fold_left (fun st n => Subfinder.settleNext items mapper n st) sched st) = true.
Proof.
  induction sched as [|n sched IH]; intros st Hreach Hk Hfuel; simpl in *.
  - destruct (reachable_spec st Hreach) as [Hc _].
    destruct (consistent_counts st Hc) as [Hcount _].
    apply allDone_inFlight. lia.
  - apply IH; [now apply settle_reachable|exact Hk|].
    destruct (settleNext_spec n st) as [[Hidle ->]|[_ Hs]].
    + rewrite (idle_complete st Hreach Hk Hidle). lia.
    + destruct (reachable_spec st Hreach) as [Hc _].
      pose proof (step_grows st _ Hc Hs). lia.
Qed.

(** Every pushed record is the record owed to some item of the input. *)
Lemma reachable_out (st : State) :
  Subfinder.reachable items mapper concurrency st ->
  Forall (fun o => exists i x, In x items /\ o = owedRecord mapper i x)
         (Subfinder.out st).
Proof.
  intros Hreach. destruct (reachable_spec st Hreach) as [(_ & Hc2 & _) _].
  apply Forall_forall. intros o Hin.
  apply (recordsFrom_In 0 items).
  apply (In_firstn _ (Subfinder.index st)). fold (expected items mapper).
  eapply Permutation_in; [exact Hc2|]. apply in_or_app. now left.
Qed.

(** ** A mapper that always returns a promise *)

Hypothesis Hasync : neverThrows mapper.

Lemma turn_async (rest : list A) (st : State) :
  Subfinder.index (fst (Subfinder.turn mapper rest st)) = S (Subfinder.index st) /\
  Subfinder.out (fst (Subfinder.turn mapper rest st)) = Subfinder.out st.
Proof.
  destruct rest as [|x rest]; cbn [Subfinder.turn]; [now split|].
  destruct (Hasync (Subfinder.index st) x) as [p ->]. now split.
Qed.

Lemma spawn_async k : forall st : State,
  Subfinder.out (Subfinder.spawn items mapper k st) = Subfinder.out st.
Proof.
  induction k as [|k IH]; intros st; simpl; [reflexivity|].
  unfold Subfinder.enterLoop.
  pose proof (turn_async (skipn (Subfinder.index st) items) st) as [_ Ho].
  destruct (Subfinder.turn mapper _ st) as [st' w]. simpl in Ho.
  rewrite IH. exact Ho.
Qed.

Lemma start_async : Subfinder.out (Subfinder.start items mapper concurrency) = [].
Proof. unfold Subfinder.start. now rewrite spawn_async. Qed.

Lemma resume_async w (st st' : State) :
  Subfinder.resume items mapper w st = Some st' ->
  exists i x p,
    nth_error (Subfinder.workers st) w = Some (Subfinder.Awaiting i x p) /\
    Subfinder.out st' = Subfinder.out st ++ [settledRecord x p].
Proof.
  unfold Subfinder.resume.
  destruct (nth_error (Subfinder.workers st) w) as [[i x p|]|]; try discriminate.
  unfold Subfinder.enterLoop.
  match goal with |- context [Subfinder.turn mapper ?r ?s] =>
    pose proof (turn_async r s) as [_ Ho];
    destruct (Subfinder.turn mapper r s) as [st2 wk] end.
  simpl in Ho. intros [= <-]. exists i, x, p. split; [reflexivity|exact Ho].
Qed.

Lemma step_async (st st' : State) :
  Subfinder.step items mapper st st' ->
  List.length (Subfinder.out st') = S (List.length (Subfinder.out st)).
Proof.
  intros [w st0 st0' Hr].
  destruct (resume_async w st0 st0' Hr) as (i & x & p & _ & ->).
  rewrite length_app. simpl. lia.
Qed.

Lemma settle_some sched : forall st : State,
  List.length (Subfinder.out
    (fold_left (fun st n => Subfinder.settleNext items mapper n st) sched st))
  <= List.length (Subfinder.out st) + List.length sched.
Proof.
  induction sched as [|n sched IH]; intros st; simpl.
  - lia.
  - specialize (IH (Subfinder.settleNext items mapper n st)).
    destruct (settleNext_spec n st) as [[_ E]|[_ Hs]].
    + rewrite E in *. lia.
    + rewrite (step_async st _ Hs) in IH. lia.
Qed.

End SchedulerFacts.

(** Whatever [concurrencyMap] returns holds one record per position of the
    input, and by then the mapper has been called on every item in input
    order. *)
Lemma concurrencyMap_returns {A R : Type}
  (items : list A) (mapper : nat -> A -> Called R) (K : nat) (sched : list nat)
  (out : list (Outcome A R)) :
  1 <= K ->
  Subfinder.concurrencyMap items mapper K sched = Some out ->
  List.length out = List.length items /\
  Permutation out (expected items mapper) /\
  Permutation (map item out) items /\
  Subfinder.invoked (Subfinder.exec items mapper K sched) = items.
Proof.
  intros HK. unfold Subfinder.concurrencyMap.
  destruct (Subfinder.allDone (Subfinder.exec items mapper K sched)) eqn:Hdone;
    [|discriminate].
  intros [= <-].
  pose proof (exec_reachable items mapper K sched) as Hreach.
  destruct (reachable_spec items mapper K _ Hreach) as [Hc Hw].
  destruct (finished_spec items mapper _ Hc) as [Hperm Hinv]; [lia|exact Hdone|].
  split; [|split; [exact Hperm|split; [|exact Hinv]]].
  - apply Permutation_length in Hperm. now rewrite expected_length in Hperm.
  - rewrite <- (recordsFrom_item mapper 0 items) at 2.
    apply Permutation_map. exact Hperm.
Qed.

(** Once as many promises have settled as there are items, the promise of
    [concurrencyMap] is fulfilled. *)
Lemma concurrencyMap_some {A R : Type}
  (items : list A) (mapper : nat -> A -> Called R) (K : nat) (sched : list nat) :
  1 <= K ->
  List.length items <= List.length sched ->
  exists out, Subfinder.concurrencyMap items mapper K sched = Some out.
Proof.
  intros HK Hsched.
  assert (Hdone : Subfinder.allDone (Subfinder.exec items mapper K sched) = true).
  { unfold Subfinder.exec. apply settle_all with (concurrency := K).
    - apply Subfinder.reach_start.
    - lia.
    - lia. }
  unfold Subfinder.concurrencyMap. rewrite Hdone. eauto.
Qed.

(** C2: with at least one worker, whatever the order in which the awaited
    promises settle, the array [concurrencyMap] returns has exactly one
    record per position of the input, each carrying its own item with the
    result of its call or with the error the call threw or was rejected
    with, a failed call giving a record like any other; by then the mapper
    has been called once for each position, in input order; and once as
    many promises have settled as there are items, it does return. *)
Theorem concurrencyMap_complete {A R : Type}
  (items : list A) (mapper : nat -> A -> Called R) (K : nat) (sched : list nat) :
  1 <= K ->
  (forall out,
     Subfinder.concurrencyMap items mapper K sched = Some out ->
     List.length out = List.length items /\
     Permutation out (expected items mapper) /\
     Permutation (map item out) items /\
     Subfinder.invoked (Subfinder.exec items mapper K sched) = items) /\
  (List.length items <= List.length sched ->
   exists out, Subfinder.concurrencyMap items mapper K sched = Some out).
Proof.
  intros HK. split.
  - intros out. now apply concurrencyMap_returns.
  - now apply concurrencyMap_some.
Qed.

Lemma concurrencyMap_complete_witness :
  1 <= 2 /\
  exists out,
    Subfinder.concurrencyMap batch batchMapper 2 [1; 0; 0] = Some out /\
    List.length out = List.length batch /\
    Permutation out (expected batch batchMapper) /\
    Permutation (map item out) batch /\
    Subfinder.invoked (Subfinder.exec batch batchMapper 2 [1; 0; 0]) = batch.
Proof.
  split; [lia|].
  destruct (concurrencyMap_complete batch batchMapper 2 [1; 0; 0]) as [Hall Hsome];
    [lia|].
  destruct Hsome as [out Hout]; [simpl; lia|].
  exists out. split; [exact Hout|]. exact (Hall out Hout).
Defined.

(** C8: in every state the event loop can reach, the mapper calls made
    and not yet settled are as many as the suspended workers, so at most
    as many as the concurrency limit. *)
Theorem concurrencyMap_bounded {A R : Type}
  (items : list A) (mapper : nat -> A -> Called R) (K : nat)
  (st : @Subfinder.State A R) :
  Subfinder.reachable items mapper K st ->
  List.length (Subfinder.invoked st) =
    List.length (Subfinder.out st) + Subfinder.inFlight st /\
  Subfinder.inFlight st <= K.
Proof.
  intros Hreach.
  destruct (reachable_spec items mapper K st Hreach) as [Hc Hw].
  destruct (consistent_counts items mapper st Hc) as [H1 H2].
  split; [lia|].
  rewrite <- Hw. unfold Subfinder.inFlight. apply filter_length_le.
Qed.

Lemma concurrencyMap_bounded_witness :
  Subfinder.reachable batch batchMapper 2 (Subfinder.exec batch batchMapper 2 [1]) /\
  List.length (Subfinder.invoked (Subfinder.exec batch batchMapper 2 [1])) =
    List.length (Subfinder.out (Subfinder.exec batch batchMapper 2 [1])) +
    Subfinder.inFlight (Subfinder.exec batch batchMapper 2 [1]) /\
  Subfinder.inFlight (Subfinder.exec batch batchMapper 2 [1]) <= 2.
Proof.
  assert (H : Subfinder.reachable batch batchMapper 2
                (Subfinder.exec batch batchMapper 2 [1])).
  { eapply Subfinder.reach_step; [apply Subfinder.reach_start|].
    apply Subfinder.step_resume with (w := 1). reflexivity. }
  split; [exact H|].
  apply (concurrencyMap_bounded batch batchMapper 2 _ H).
Defined.

(** C10: every run of [resolveHost] is fulfilled with an array; hence, with
    [resolveHost] as the mapper, no state of the scheduler holds an error
    record. *)
Theorem resolveHost_never_rejects (h : Handler) (items : list string) (K : nat)
  (st : @Subfinder.State string (list string)) :
  Subfinder.reachable items
    (fun _ host => Returned (run h (Subfinder.resolveHost host))) K st ->
  (forall host, exists ips, run h (Subfinder.resolveHost host) = Fulfilled ips) /\
  Forall (fun o => hasResult o = true) (Subfinder.out st) /\
  (forall sched out,
     Subfinder.concurrencyMap items
       (fun _ host => Returned (run h (Subfinder.resolveHost host))) K sched = Some out ->
     Forall (fun o => exists ips, o = ResultRec (item o) ips) out).
Proof.
  intros Hreach.
  assert (Hrec : forall i x,
             owedRecord (fun _ host => Returned (run h (Subfinder.resolveHost host))) i x =
             ResultRec x (Set_addAll (found (h _ (dns_resolve6 x)))
                           (Set_addAll (found (h _ (dns_resolve4 x)))
                              (Set_addAll (map address (found (h _ (dns_lookup x lookupOptions)))) [])))).
  { intros i x. unfold owedRecord. now rewrite resolveHost_run. }
  split; [|split].
  - intros host. rewrite resolveHost_run. eauto.
  - eapply Forall_impl; [|apply (reachable_out _ _ _ _ Hreach)].
    intros o (i & x & _ & ->). now rewrite Hrec.
  - intros sched out. unfold Subfinder.concurrencyMap.
    destruct (Subfinder.allDone _); [|discriminate]. intros [= <-].
    eapply Forall_impl; [|apply (reachable_out _ _ _ _ (exec_reachable _ _ K sched))].
    intros o (i & x & _ & ->). rewrite Hrec. simpl. eauto.
Qed.

Lemma resolveHost_never_rejects_witness :
  Subfinder.reachable batch
    (fun _ host => Returned (run batchNetwork (Subfinder.resolveHost host))) 2
    (Subfinder.exec batch
       (fun _ host => Returned (run batchNetwork (Subfinder.resolveHost host)))
       2 [1; 0; 0]) /\
  (forall host, exists ips, run batchNetwork (Subfinder.resolveHost host) = Fulfilled ips) /\
  Forall (fun o => hasResult o = true)
    (Subfinder.out
       (Subfinder.exec batch
          (fun _ host => Returned (run batchNetwork (Subfinder.resolveHost host)))
          2 [1; 0; 0])).
Proof.
  assert (H : Subfinder.reachable batch
                (fun _ host => Returned (run batchNetwork (Subfinder.resolveHost host))) 2
                (Subfinder.exec batch
                   (fun _ host => Returned (run batchNetwork (Subfinder.resolveHost host)))
                   2 [1; 0; 0])).
  { eapply Subfinder.reach_step;
      [eapply Subfinder.reach_step;
         [eapply Subfinder.reach_step;
            [apply Subfinder.reach_start
            |apply Subfinder.step_resume with (w := 1); reflexivity]
         |apply Subfinder.step_resume with (w := 0); reflexivity]
      |apply Subfinder.step_resume with (w := 1); reflexivity]. }
  split; [exact H|].
  destruct (resolveHost_never_rejects batchNetwork batch 2 _ H) as (H1 & H2 & _).
  split; [exact H1|exact H2].
Defined.

(* ================================================================== *)
(** * Sorting *)
(* ================================================================== *)

Section SortFacts.
Context {T : Type}.
Variable before : T -> T -> bool.
Hypothesis before_total : forall a b, before a b = false -> before b a = true.
Hypothesis before_trans :
  forall a b c, before a b = true -> before b c = true -> before a c = true.

Lemma insertSorted_perm x (l : list T) : Permutation (insertSorted before x l) (x :: l).
Proof.
  induction l as [|y l IH]; simpl; [reflexivity|].
  destruct (before x y); [reflexivity|].
  rewrite IH. apply perm_swap.
Qed.

Lemma sortBy_perm (l : list T) : Permutation (sortBy before l) l.
Proof.
  induction l as [|x l IH]; simpl; [reflexivity|].
  rewrite insertSorted_perm. now apply perm_skip.
Qed.

Lemma insertSorted_sorted x (l : list T) :
  StronglySorted (fun a b => before a b = true) l ->
  StronglySorted (fun a b => before a b = true) (insertSorted before x l).
Proof.
  induction l as [|y l IH]; intros Hs; simpl.
  - repeat constructor.
  - inversion Hs as [|y' l' Hs' Hall]; subst.
    destruct (before x y) eqn:E.
    + constructor; [exact Hs|]. constructor; [exact E|].
      eapply Forall_impl; [|exact Hall]. intros z Hz. eapply before_trans; eauto.
    + constructor; [now apply IH|].
      rewrite (insertSorted_perm x l). constructor; [now apply before_total|exact Hall].
Qed.

Lemma sortBy_sorted (l : list T) :
  StronglySorted (fun a b => before a b = true) (sortBy before l).
Proof.
  induction l as [|x l IH]; simpl; [constructor|].
  now apply insertSorted_sorted.
Qed.

(** Two sorted arrangements of the same elements coincide as soon as the
    order tells those elements apart. *)
Lemma sorted_unique (l1 : list T) : forall l2,
  StronglySorted (fun a b => before a b = true) l1 ->
  StronglySorted (fun a b => before a b = true) l2 ->
  Permutation l1 l2 ->
  (forall a b, In a l1 -> In b l1 -> before a b = true -> before b a = true -> a = b) ->
  l1 = l2.
Proof.
  induction l1 as [|a l1 IH]; intros l2 H1 H2 Hp Hanti.
  - apply Permutation_nil in Hp. now subst.
  - destruct l2 as [|b l2].
    { apply Permutation_sym, Permutation_nil in Hp. discriminate. }
    inversion H1 as [|a' l1' H1' Hall1]; subst.
    inversion H2 as [|b' l2' H2' Hall2]; subst.
    assert (Hab : a = b).
    { assert (Ha : In a (b :: l2)) by (eapply Permutation_in; [exact Hp|now left]).
      assert (Hb : In b (a :: l1))
        by (eapply Permutation_in; [apply Permutation_sym, Hp|now left]).
      destruct Ha as [Ha|Ha]; [now subst|].
      destruct Hb as [Hb|Hb]; [now subst|].
      apply Hanti; [now left|now right| |].
      - rewrite Forall_forall in Hall1. now apply Hall1.
      - rewrite Forall_forall in Hall2. now apply Hall2. }
    subst b. f_equal.
    apply IH; [exact H1'|exact H2'|eapply Permutation_cons_inv; exact Hp|].
    intros x y Hx Hy. apply Hanti; now right.
Qed.

End SortFacts.

Section CodeUnitOrder.

Lemma ascii_compare_refl c : Ascii.compare c c = Eq.
Proof. unfold Ascii.compare. apply N.compare_refl. Qed.

Lemma string_compare_trans : forall a b c : string,
  String.compare a b <> Gt -> String.compare b c <> Gt -> String.compare a c <> Gt.
Proof.
  induction a as [|x a IH]; intros [|y b] [|z c]; simpl; try congruence.
  unfold Ascii.compare.
  destruct (N.compare_spec (N_of_ascii x) (N_of_ascii y)) as [Exy|Lxy|Gxy];
    destruct (N.compare_spec (N_of_ascii y) (N_of_ascii z)) as [Eyz|Lyz|Gyz];
    try congruence.
  - rewrite Exy, Eyz, N.compare_refl. apply IH.
  - intros _ _. rewrite Exy. apply N.compare_lt_iff in Lyz. rewrite Lyz. discriminate.
  - intros _ _. rewrite <- Eyz. apply N.compare_lt_iff in Lxy. rewrite Lxy. discriminate.
  - intros _ _. assert (L : (N_of_ascii x < N_of_ascii z)%N) by (eapply N.lt_trans; eauto).
    apply N.compare_lt_iff in L. rewrite L. discriminate.
Qed.

Lemma codeUnitCompare_le a b :
  (codeUnitCompare a b <= 0)%Z <-> String.compare a b <> Gt.
Proof.
  unfold codeUnitCompare. destruct (String.compare a b); split; intros H; try lia; congruence.
Qed.

Lemma codeUnitCompare_total a b :
  (0 < codeUnitCompare a b)%Z -> (codeUnitCompare b a <= 0)%Z.
Proof.
  unfold codeUnitCompare. rewrite (String.compare_antisym b a).
  destruct (String.compare a b); simpl; lia.
Qed.

Lemma codeUnitCompare_trans a b c :
  (codeUnitCompare a b <= 0)%Z -> (codeUnitCompare b c <= 0)%Z ->
  (codeUnitCompare a c <= 0)%Z.
Proof. rewrite !codeUnitCompare_le. apply string_compare_trans. Qed.

Lemma codeUnitCompare_strict a b :
  (codeUnitCompare a b <= 0)%Z -> (codeUnitCompare b a <= 0)%Z -> a = b.
Proof.
  unfold codeUnitCompare. rewrite (String.compare_antisym b a).
  destruct (String.compare a b) eqn:E; simpl; try lia.
  intros _ _. now apply String.compare_eq_iff.
Qed.

End CodeUnitOrder.

(* ================================================================== *)
(** * The report of main *)
(* ================================================================== *)

Section FilterFacts.
Context {T : Type}.
Variable keep : T -> bool.

Lemma filter_perm (l1 l2 : list T) :
  Permutation l1 l2 -> Permutation (filter keep l1) (filter keep l2).
Proof.
  induction 1 as [|x l1 l2 _ IH|x y l|l1 l2 l3 _ IH1 _ IH2]; simpl.
  - constructor.
  - destruct (keep x); [now constructor|exact IH].
  - destruct (keep x), (keep y); try reflexivity. apply perm_swap.
  - etransitivity; eauto.
Qed.

Lemma filter_sorted (rel : T -> T -> Prop) (l : list T) :
  StronglySorted rel l -> StronglySorted rel (filter keep l).
Proof.
  induction 1 as [|x l Hs IH Hall]; simpl; [constructor|].
  destruct (keep x); [|exact IH].
  constructor; [exact IH|].
  rewrite Forall_forall in *. intros y Hy. apply Hall.
  now apply filter_In in Hy.
Qed.

End FilterFacts.

Lemma isLive_iff (o : Outcome string (list string)) :
  Subfinder.isLive o = true <-> exists ips, o = ResultRec (item o) ips /\ ips <> [].
Proof.
  destruct o as [h ips|h err]; simpl.
  - rewrite Nat.ltb_lt. split.
    + intros H. exists ips. split; [reflexivity|]. intros ->. simpl in H. lia.
    + intros (ips' & [= <-] & Hne). destruct ips; [congruence|simpl; lia].
  - split; [discriminate|]. intros (ips & H & _). discriminate.
Qed.

Lemma printLoop_from (l : list (Outcome string (list string))) : forall lines count,
  fold_left (fun '(lines, count) o =>
               if Subfinder.isLive o
               then (lines ++ HostLine (item o) :: map AddressLine (Subfinder.ipsOf o),
                     S count)
               else (lines, count)) l (lines, count) =
  (lines ++ flat_map block (filter Subfinder.isLive l),
   count + List.length (filter Subfinder.isLive l)).
Proof.
  induction l as [|o l IH]; intros lines count; simpl.
  - now rewrite app_nil_r, Nat.add_0_r.
  - destruct (Subfinder.isLive o); rewrite IH; simpl; [|reflexivity].
    rewrite <- app_assoc. simpl. f_equal. lia.
Qed.

Lemma printLoop_spec (sorted : list (Outcome string (list string))) :
  Subfinder.printLoop sorted =
  (flat_map block (filter Subfinder.isLive sorted),
   List.length (filter Subfinder.isLive sorted)).
Proof. unfold Subfinder.printLoop. now rewrite printLoop_from. Qed.

Lemma hostLines_app l1 l2 : hostLines (l1 ++ l2) = hostLines l1 ++ hostLines l2.
Proof. unfold hostLines. apply flat_map_app. Qed.

Lemma hostLines_addresses ips : hostLines (map AddressLine ips) = [].
Proof. induction ips as [|ip ips IH]; simpl; auto. Qed.

Lemma hostLines_blocks (l : list (Outcome string (list string))) :
  hostLines (flat_map block l) = map item l.
Proof.
  induction l as [|o l IH]; simpl; [reflexivity|].
  rewrite hostLines_app, hostLines_addresses, IH. reflexivity.
Qed.

Section ReportFacts.
Variable localeCompare : string -> string -> Z.
Hypothesis compare_total :
  forall a b, (0 < localeCompare a b -> localeCompare b a <= 0)%Z.
Hypothesis compare_trans :
  forall a b c, (localeCompare a b <= 0 -> localeCompare b c <= 0 ->
                 localeCompare a c <= 0)%Z.

Lemma byItem_total a b :
  Subfinder.byItem localeCompare a b = false ->
  Subfinder.byItem localeCompare b a = true.
Proof.
  unfold Subfinder.byItem. rewrite Z.leb_gt, Z.leb_le. apply compare_total.
Qed.

Lemma byItem_trans a b c :
  Subfinder.byItem localeCompare a b = true ->
  Subfinder.byItem localeCompare b c = true ->
  Subfinder.byItem localeCompare a c = true.
Proof.
  unfold Subfinder.byItem. rewrite !Z.leb_le. apply compare_trans.
Qed.

Lemma report_spec subdomains resolved :
  Subfinder.report localeCompare subdomains resolved =
  flat_map block (filter Subfinder.isLive (sortBy (Subfinder.byItem localeCompare) resolved)) ++
  [Info "Summary:";
   InfoCount " - Total subdomains found: #" (List.length subdomains);
   InfoCount " - Successfully resolved: #"
     (List.length (filter Subfinder.isLive (sortBy (Subfinder.byItem localeCompare) resolved)))].
Proof. unfold Subfinder.report. now rewrite printLoop_spec. Qed.

Lemma sorted_records resolved :
  StronglySorted (fun a b => (localeCompare (item a) (item b) <= 0)%Z)
    (sortBy (Subfinder.byItem localeCompare) resolved).
Proof.
  pose proof (sortBy_sorted _ byItem_total byItem_trans resolved) as H.
  induction H as [|x l Hs IH Hall]; constructor; [exact IH|].
  eapply Forall_impl; [|exact Hall].
  intros y Hy. now apply Z.leb_le.
Qed.

End ReportFacts.

(** C5: the report shows a block for exactly the records that carry a
    non-empty result (an empty result and an error record show nothing),
    in the order of [localeCompare] on the host names, and closes with the
    number of candidates and the number of blocks shown. *)
Theorem report_lists_live_hosts
  (localeCompare : string -> string -> Z)
  (subdomains : list string) (resolved : list (Outcome string (list string)))
  (compare_total : forall a b, (0 < localeCompare a b -> localeCompare b a <= 0)%Z)
  (compare_trans : forall a b c, (localeCompare a b <= 0 -> localeCompare b c <= 0 ->
                                  localeCompare a c <= 0)%Z) :
  exists shown,
    Subfinder.report localeCompare subdomains resolved =
      flat_map block shown ++
      [Info "Summary:";
       InfoCount " - Total subdomains found: #" (List.length subdomains);
       InfoCount " - Successfully resolved: #" (List.length shown)] /\
    hostLines (Subfinder.report localeCompare subdomains resolved) = map item shown /\
    (forall o, In o shown <->
               In o resolved /\ exists ips, o = ResultRec (item o) ips /\ ips <> []) /\
    Permutation shown (filter Subfinder.isLive resolved) /\
    StronglySorted (fun a b => (localeCompare (item a) (item b) <= 0)%Z) shown.
Proof.
  exists (filter Subfinder.isLive (sortBy (Subfinder.byItem localeCompare) resolved)).
  split; [apply report_spec|]. split; [|split; [|split]].
  - rewrite report_spec, hostLines_app, hostLines_blocks. simpl. apply app_nil_r.
  - intros o. rewrite filter_In, isLive_iff.
    split; intros [Hin Hl]; (split; [|exact Hl]).
    + eapply Permutation_in; [apply sortBy_perm|exact Hin].
    + eapply Permutation_in; [apply Permutation_sym, sortBy_perm|exact Hin].
  - apply filter_perm, sortBy_perm.
  - apply filter_sorted. now apply sorted_records.
Qed.

Lemma report_lists_live_hosts_witness :
  exists shown,
    Subfinder.report codeUnitCompare batch batchResolved =
      flat_map block shown ++
      [Info "Summary:";
       InfoCount " - Total subdomains found: #" 3;
       InfoCount " - Successfully resolved: #" (List.length shown)] /\
    hostLines (Subfinder.report codeUnitCompare batch batchResolved) = map item shown.
Proof.
  destruct (report_lists_live_hosts codeUnitCompare batch batchResolved
              codeUnitCompare_total codeUnitCompare_trans)
    as [shown (H1 & H2 & _)].
  exists shown. split; [exact H1|exact H2].
Defined.

(** The batch scenario: "b" is left out, "a" and "c" are shown in
    alphabetical order, 3 found and 2 resolved. *)
Example report_batch :
  Subfinder.report codeUnitCompare batch batchResolved =
  [ HostLine "a.example.com"; AddressLine "192.0.2.1";
    HostLine "c.example.com"; AddressLine "192.0.2.3";
    Info "Summary:";
    InfoCount " - Total subdomains found: #" 3;
    InfoCount " - Successfully resolved: #" 2 ].
Proof. reflexivity. Qed.

Lemma report_perm
  (localeCompare : string -> string -> Z)
  (subdomains : list string) (l1 l2 : list (Outcome string (list string)))
  (compare_total : forall a b, (0 < localeCompare a b -> localeCompare b a <= 0)%Z)
  (compare_trans : forall a b c, (localeCompare a b <= 0 -> localeCompare b c <= 0 ->
                                  localeCompare a c <= 0)%Z)
  (compare_strict : forall a b, (localeCompare a b <= 0 -> localeCompare b a <= 0 ->
                                 a = b)%Z)
  (Hperm : Permutation l1 l2)
  (Hfun : forall a b, In a l1 -> In b l1 -> item a = item b -> a = b) :
  Subfinder.report localeCompare subdomains l1 =
  Subfinder.report localeCompare subdomains l2.
Proof.
  rewrite !report_spec.
  assert (E : sortBy (Subfinder.byItem localeCompare) l1 =
              sortBy (Subfinder.byItem localeCompare) l2).
  { apply (sorted_unique (Subfinder.byItem localeCompare)).
    - apply sortBy_sorted; [now apply byItem_total|now apply byItem_trans].
    - apply sortBy_sorted; [now apply byItem_total|now apply byItem_trans].
    - rewrite !sortBy_perm. exact Hperm.
    - intros a b Ha Hb Hab Hba.
      apply Hfun.
      + eapply Permutation_in; [apply sortBy_perm|exact Ha].
      + eapply Permutation_in; [apply sortBy_perm|exact Hb].
      + unfold Subfinder.byItem in *. apply Z.leb_le in Hab, Hba.
        now apply compare_strict. }
  now rewrite E.
Qed.

(** The sort is stable and compares host names only: two records for one
    host name, which no array that [main] sorts holds, would be shown in
    arrival order. *)
Example report_stable_on_duplicates :
  Subfinder.report codeUnitCompare ["a.example.com"]
    [ResultRec "a.example.com" ["192.0.2.1"]; ResultRec "a.example.com" ["192.0.2.2"]]
  <>
  Subfinder.report codeUnitCompare ["a.example.com"]
    [ResultRec "a.example.com" ["192.0.2.2"]; ResultRec "a.example.com" ["192.0.2.1"]].
Proof. vm_compute. discriminate. Qed.

Lemma addressesOf_app ips rest :
  addressesOf (map AddressLine ips ++ rest) = ips ++ addressesOf rest.
Proof. induction ips as [|ip ips IH]; simpl; [reflexivity|now rewrite IH]. Qed.

Lemma printedMapping_addresses ips rest :
  printedMapping (map AddressLine ips ++ rest) = printedMapping rest.
Proof. induction ips as [|ip ips IH]; simpl; auto. Qed.

Lemma addressesOf_blocks (l : list (Outcome string (list string))) tail :
  addressesOf tail = [] -> addressesOf (flat_map block l ++ tail) = [].
Proof. destruct l as [|o l]; [exact (fun H => H)|reflexivity]. Qed.

(** The mapping read back from printed blocks is the one the records
    stand for. *)
Lemma printedMapping_blocks (l : list (Outcome string (list string))) tail :
  addressesOf tail = [] ->
  printedMapping (flat_map block l ++ tail) = map entry l ++ printedMapping tail.
Proof.
  intros Htail. induction l as [|o l IH]; [reflexivity|].
  cbn [flat_map map]. rewrite <- app_assoc.
  change (block o ++ flat_map block l ++ tail)
    with (HostLine (item o) ::
          map AddressLine (Subfinder.ipsOf o) ++ flat_map block l ++ tail).
  cbn [printedMapping].
  rewrite addressesOf_app, printedMapping_addresses, IH.
  rewrite (addressesOf_blocks l tail Htail), app_nil_r. reflexivity.
Qed.

Lemma summaryCounts_app l1 l2 :
  summaryCounts (l1 ++ l2) = summaryCounts l1 ++ summaryCounts l2.
Proof. unfold summaryCounts. apply flat_map_app. Qed.

Lemma summaryCounts_blocks (l : list (Outcome string (list string))) :
  summaryCounts (flat_map block l) = [].
Proof.
  induction l as [|o l IH]; [reflexivity|].
  cbn [flat_map]. rewrite summaryCounts_app, IH, app_nil_r.
  unfold block, summaryCounts. simpl.
  induction (Subfinder.ipsOf o) as [|ip ips IHips]; simpl; auto.
Qed.

Lemma report_mapping localeCompare subdomains resolved :
  printedMapping (Subfinder.report localeCompare subdomains resolved) =
  map entry (filter Subfinder.isLive (sortBy (Subfinder.byItem localeCompare) resolved)).
Proof.
  rewrite report_spec, printedMapping_blocks by reflexivity.
  simpl. apply app_nil_r.
Qed.

Lemma report_counts localeCompare subdomains resolved :
  summaryCounts (Subfinder.report localeCompare subdomains resolved) =
  [(" - Total subdomains found: #", List.length subdomains);
   (" - Successfully resolved: #",
    List.length (filter Subfinder.isLive resolved))].
Proof.
  rewrite report_spec, summaryCounts_app, summaryCounts_blocks. simpl.
  do 3 f_equal. apply Permutation_length, filter_perm, sortBy_perm.
Qed.

(** C6: two arrival orders of the same outcome pairs give the same final
    mapping, the live host names each with its addresses, as the pairs
    alone determine it, and the same summary counts; and when there is
    one outcome per host name, as in every array that [main] sorts, and
    the collation is a total order that tells distinct host names apart,
    the two reports are the same line for line. *)
Theorem report_order_independent
  (localeCompare : string -> string -> Z)
  (subdomains : list string) (l1 l2 : list (Outcome string (list string)))
  (Hperm : Permutation l1 l2) :
  Permutation (printedMapping (Subfinder.report localeCompare subdomains l1))
              (map entry (filter Subfinder.isLive l1)) /\
  Permutation (printedMapping (Subfinder.report localeCompare subdomains l1))
              (printedMapping (Subfinder.report localeCompare subdomains l2)) /\
  summaryCounts (Subfinder.report localeCompare subdomains l1) =
  summaryCounts (Subfinder.report localeCompare subdomains l2) /\
  ((forall a b, (0 < localeCompare a b -> localeCompare b a <= 0)%Z) ->
   (forall a b c, (localeCompare a b <= 0 -> localeCompare b c <= 0 ->
                   localeCompare a c <= 0)%Z) ->
   (forall a b, (localeCompare a b <= 0 -> localeCompare b a <= 0 -> a = b)%Z) ->
   (forall a b, In a l1 -> In b l1 -> item a = item b -> a = b) ->
   Subfinder.report localeCompare subdomains l1 =
   Subfinder.report localeCompare subdomains l2).
Proof.
  split; [|split; [|split]].
  - rewrite report_mapping. apply Permutation_map, filter_perm, sortBy_perm.
  - rewrite !report_mapping. apply Permutation_map, filter_perm.
    now rewrite !sortBy_perm.
  - rewrite !report_counts. do 3 f_equal.
    apply Permutation_length, filter_perm, Hperm.
  - intros compare_total compare_trans compare_strict Hfun.
    now apply report_perm.
Qed.

Lemma batchResolved_one_outcome_per_host :
  forall a b, In a batchResolved -> In b batchResolved -> item a = item b -> a = b.
Proof.
  intros a b Ha Hb H. simpl in Ha, Hb.
  destruct Ha as [<-|[<-|[<-|[]]]]; destruct Hb as [<-|[<-|[<-|[]]]];
    try reflexivity; discriminate H.
Qed.

Lemma report_order_independent_witness :
  Permutation batchResolved (rev batchResolved) /\
  Permutation (printedMapping (Subfinder.report codeUnitCompare batch batchResolved))
              (printedMapping (Subfinder.report codeUnitCompare batch (rev batchResolved))) /\
  summaryCounts (Subfinder.report codeUnitCompare batch batchResolved) =
  summaryCounts (Subfinder.report codeUnitCompare batch (rev batchResolved)) /\
  Subfinder.report codeUnitCompare batch batchResolved =
  Subfinder.report codeUnitCompare batch (rev batchResolved).
Proof.
  split; [apply Permutation_rev|].
  destruct (report_order_independent codeUnitCompare batch batchResolved
              (rev batchResolved) (Permutation_rev batchResolved))
    as (_ & Hmap & Hcount & Hsame).
  split; [exact Hmap|]. split; [exact Hcount|].
  exact (Hsame codeUnitCompare_total codeUnitCompare_trans codeUnitCompare_strict
               batchResolved_one_outcome_per_host).
Defined.

(* ================================================================== *)
(** * The pipeline of main *)
(* ================================================================== *)

(** ** The candidate list holds each name once *)

Lemma subfinder_addNames_NoDup domain names : forall subs,
  NoDup subs -> NoDup (Subfinder.addNames domain names subs).
Proof.
  unfold Subfinder.addNames.
  induction names as [|n names IH]; intros subs H; simpl; [exact H|].
  apply IH. destruct (Subfinder.normalize domain n); [now apply Set_add_NoDup|exact H].
Qed.

Lemma subfinder_addEntries_NoDup domain entries : forall subs subs',
  NoDup subs ->
  Subfinder.addEntries domain entries subs = Fulfilled subs' -> NoDup subs'.
Proof.
  induction entries as [|entry rest IH]; intros subs subs' H; simpl.
  - now intros [= <-].
  - unfold Subfinder.addEntry.
    destruct (Subfinder.namesOf entry) as [names|]; [|discriminate].
    apply IH. now apply subfinder_addNames_NoDup.
Qed.

Lemma fetchSubdomains_NoDup (h : Handler) (domain : string) subs :
  run h (Subfinder.fetchSubdomains domain) = Fulfilled subs -> NoDup subs.
Proof.
  rewrite subfinder_fetch_run.
  destruct (h _ (axios_get _ _)) as [data|err]; [|intros [= <-]; constructor].
  destruct (Subfinder.collect domain data) as [l|err] eqn:E;
    [|intros [= <-]; constructor].
  intros [= <-]. unfold Subfinder.collect in E.
  destruct data as [| | b | z | str | entries | fields];
    try (injection E as <-; constructor).
  destruct (Subfinder.addEntries domain entries []) as [l0|] eqn:E0; [|discriminate].
  injection E as <-.
  eapply Permutation_NoDup; [apply Permutation_sym, sortBy_perm|].
  eapply subfinder_addEntries_NoDup; [constructor|exact E0].
Qed.

(** ** The candidate list holds the names that normalisation keeps *)

Lemma subfinder_addNames_In domain names : forall subs x,
  In x (Subfinder.addNames domain names subs) <->
  In x subs \/ exists n, In n names /\ Subfinder.normalize domain n = Some x.
Proof.
  unfold Subfinder.addNames.
  induction names as [|n names IH]; intros subs x; simpl.
  - split; [auto|]. intros [H|(n & [] & _)]. exact H.
  - rewrite IH. destruct (Subfinder.normalize domain n) as [h|] eqn:E.
    + rewrite Set_add_In. split.
      * intros [[->|H]|(m & Hm & Hn)]; eauto.
      * intros [H|(m & [<-|Hm] & Hn)]; eauto.
        left. left. congruence.
    + split.
      * intros [H|(m & Hm & Hn)]; eauto.
      * intros [H|(m & [<-|Hm] & Hn)]; eauto. congruence.
Qed.

Lemma subfinder_addEntries_In domain entries : forall subs subs',
  Subfinder.addEntries domain entries subs = Fulfilled subs' ->
  forall x,
    In x subs' <->
    In x subs \/
    exists entry names n,
      In entry entries /\ Subfinder.namesOf entry = Fulfilled names /\
      In n names /\ Subfinder.normalize domain n = Some x.
Proof.
  induction entries as [|entry rest IH]; intros subs subs'; simpl.
  - intros [= <-] x. split; [auto|]. intros [H|(e & ns & n & [] & _)]. exact H.
  - unfold Subfinder.addEntry.
    destruct (Subfinder.namesOf entry) as [names|] eqn:E; [|discriminate].
    intros H x. rewrite (IH _ _ H x), subfinder_addNames_In. split.
    + intros [[Hx|(n & Hn & Hk)]|(e & ns & n & He & Hns & Hn & Hk)].
      * now left.
      * right. exists entry, names, n. auto.
      * right. exists e, ns, n. auto.
    + intros [Hx|(e & ns & n & [<-|He] & Hns & Hn & Hk)].
      * now left; left.
      * left. right. exists n. split; [|exact Hk]. congruence.
      * right. exists e, ns, n. auto.
Qed.

(** When no entry throws, the list returned holds exactly the names that
    [normalize] keeps, over all lines of all entries. *)
Lemma subfinder_collect_In domain entries subs :
  Subfinder.collect domain (JArray entries) = Fulfilled subs ->
  forall x,
    In x subs <->
    exists entry names n,
      In entry entries /\ Subfinder.namesOf entry = Fulfilled names /\
      In n names /\ Subfinder.normalize domain n = Some x.
Proof.
  unfold Subfinder.collect.
  destruct (Subfinder.addEntries domain entries []) as [raw|] eqn:E; [|discriminate].
  intros [= <-] x.
  pose proof (subfinder_addEntries_In domain entries [] raw E x) as Hraw.
  split.
  - intros H.
    assert (Hx : In x raw)
      by (eapply Permutation_in; [apply sortBy_perm|exact H]).
    apply Hraw in Hx as [[]|Hx]. exact Hx.
  - intros H.
    eapply Permutation_in; [apply Permutation_sym, sortBy_perm|].
    apply Hraw. now right.
Qed.

(** X20: whatever the order in which the lookups complete, [main] prints
    the same lines, provided the collation is a total order that tells
    distinct names apart. *)
Lemma main_order_independent
  (localeCompare : string -> string -> Z) (domain : string) (h : Handler)
  (sched1 sched2 : list nat) (subs : list string)
  (compare_total : forall a b, (0 < localeCompare a b -> localeCompare b a <= 0)%Z)
  (compare_trans : forall a b c, (localeCompare a b <= 0 -> localeCompare b c <= 0 ->
                                  localeCompare a c <= 0)%Z)
  (compare_strict : forall a b, (localeCompare a b <= 0 -> localeCompare b a <= 0 ->
                                 a = b)%Z) :
  run h (Subfinder.fetchSubdomains domain) = Fulfilled subs ->
  List.length subs <= List.length sched1 ->
  List.length subs <= List.length sched2 ->
  Subfinder.main localeCompare domain h sched1 =
  Subfinder.main localeCompare domain h sched2.
Proof.
  intros Hrun H1 H2. unfold Subfinder.main. rewrite Hrun.
  do 3 f_equal. destruct (List.length subs =? 0)%nat; [reflexivity|]. f_equal.
  set (mapper := fun (_ : nat) host => Returned (run h (Subfinder.resolveHost host))).
  assert (HK : 1 <= Subfinder.MAX_CONCURRENT) by (unfold Subfinder.MAX_CONCURRENT; lia).
  destruct (concurrencyMap_some subs mapper _ sched1 HK H1) as [out1 E1].
  destruct (concurrencyMap_some subs mapper _ sched2 HK H2) as [out2 E2].
  destruct (concurrencyMap_returns subs mapper _ sched1 out1 HK E1)
    as (_ & Hp1 & Hi1 & _).
  destruct (concurrencyMap_returns subs mapper _ sched2 out2 HK E2)
    as (_ & Hp2 & _ & _).
  rewrite E1, E2.
  apply report_perm; try assumption.
  - rewrite Hp1. now apply Permutation_sym.
  - intros a b Ha Hb Hab.
    assert (Hnd : NoDup (map item out1)).
    { eapply Permutation_NoDup; [apply Permutation_sym, Hi1|].
      eapply fetchSubdomains_NoDup, Hrun. }
    clear - Ha Hb Hab Hnd.
    induction out1 as [|o out1 IH]; [destruct Ha|].
    simpl in Hnd. inversion Hnd as [|x l Hx Hl]; subst.
    destruct Ha as [<-|Ha], Hb as [<-|Hb].
    + reflexivity.
    + exfalso. apply Hx. rewrite Hab. now apply in_map.
    + exfalso. apply Hx. rewrite <- Hab. now apply in_map.
    + now apply IH.
Qed.

(* ================================================================== *)
(** * Trimming and the prompt of subdomain.js *)
(* ================================================================== *)

Section TrimFacts.

Lemma trimStart_clean s : startsClean (trimStart s).
Proof.
  induction s as [|c s IH]; simpl; [exact I|].
  destruct (isWhiteSpace c) eqn:E; [exact IH|exact E].
Qed.

Lemma clean_trimStart t : startsClean t -> trimStart t = t.
Proof. destruct t as [|c t]; simpl; [reflexivity|]. now intros ->. Qed.

Lemma trimEnd_clean t : startsClean t -> startsClean (trimEnd t).
Proof.
  destruct t as [|c t]; [exact (fun H => H)|].
  intros H. simpl in H. rewrite (trimEnd_keeps c t H). exact H.
Qed.

Lemma trimEnd_idem s : trimEnd (trimEnd s) = trimEnd s.
Proof.
  induction s as [|c s IH]; [reflexivity|]. simpl.
  destruct (trimEnd s) as [|c' t] eqn:E.
  - destruct (isWhiteSpace c) eqn:Ec; [reflexivity|]. simpl. now rewrite Ec.
  - change (trimEnd (String c (String c' t)) = String c (String c' t)).
    simpl. simpl in IH. now rewrite IH.
Qed.

Lemma trim_idem s : trim (trim s) = trim s.
Proof.
  unfold trim.
  rewrite (clean_trimStart (trimEnd (trimStart s)))
    by apply trimEnd_clean, trimStart_clean.
  apply trimEnd_idem.
Qed.

End TrimFacts.

(** X1: whatever is typed at the prompt, the domain that [askDomain] hands
    over is not empty and carries no white space at either end; asking
    again with that domain as the answer gives it back. *)
Theorem askDomain_clean (answer : string) :
  DomainJs.askDomain answer <> EmptyString /\
  trim (DomainJs.askDomain answer) = DomainJs.askDomain answer /\
  DomainJs.askDomain (DomainJs.askDomain answer) = DomainJs.askDomain answer.
Proof.
  assert (H1 : DomainJs.askDomain answer <> EmptyString).
  { unfold DomainJs.askDomain, orDefault, nonEmpty.
    destruct (String.eqb_spec (trim answer) EmptyString) as [E|E]; simpl;
      [discriminate|exact E]. }
  assert (H2 : trim (DomainJs.askDomain answer) = DomainJs.askDomain answer).
  { unfold DomainJs.askDomain, orDefault.
    destruct (nonEmpty (trim answer)); [apply trim_idem|reflexivity]. }
  split; [exact H1|]. split; [exact H2|].
  unfold DomainJs.askDomain at 1. rewrite H2.
  unfold orDefault, nonEmpty.
  apply String.eqb_neq in H1. now rewrite H1.
Qed.

(* ================================================================== *)
(** * The candidate list of subfinder.js *)
(* ================================================================== *)

Section CodeUnitSort.

Lemma string_leb_total a b : String.leb a b = false -> String.leb b a = true.
Proof. intros H. destruct (String.leb_total a b) as [E|E]; congruence. Qed.

Lemma string_leb_le a b : String.leb a b = true <-> String.compare a b <> Gt.
Proof.
  unfold String.leb. destruct (String.compare a b); split; congruence.
Qed.

Lemma string_leb_trans a b c :
  String.leb a b = true -> String.leb b c = true -> String.leb a c = true.
Proof. rewrite !string_leb_le. apply string_compare_trans. Qed.

Lemma string_leb_ltb a b : String.leb a b = true -> a <> b -> String.ltb a b = true.
Proof.
  unfold String.leb, String.ltb. destruct (String.compare a b) eqn:E; try congruence.
  intros _ H. elim H. now apply String.compare_eq_iff.
Qed.

Lemma sortStrings_sorted l :
  StronglySorted (fun a b => String.leb a b = true) (sortStrings l).
Proof. apply sortBy_sorted; [apply string_leb_total|apply string_leb_trans]. Qed.

Lemma sortStrings_perm l : Permutation (sortStrings l) l.
Proof. apply sortBy_perm. Qed.

Lemma sorted_strict l :
  NoDup l -> StronglySorted (fun a b => String.leb a b = true) l ->
  StronglySorted (fun a b => String.ltb a b = true) l.
Proof.
  induction 2 as [|x l Hs IH Hall]; [constructor|].
  inversion H as [|x' l' Hx Hnd]; subst.
  constructor; [now apply IH|].
  rewrite Forall_forall in *. intros y Hy.
  apply string_leb_ltb; [now apply Hall|]. intros ->. contradiction.
Qed.

End CodeUnitSort.

Section SubfinderFetch.
Variable h : Handler.
Variable domain : string.

Lemma subfinder_fetch_output :
  output h (Subfinder.fetchSubdomains domain) =
  match h _ (axios_get (Subfinder.fetchUrl domain) Subfinder.fetchConfig) with
  | Fulfilled data =>
      match Subfinder.collect domain data with
      | Fulfilled _ => []
      | Rejected err => [ErrorLine "[!] Failed to fetch from crt.sh:" (message err)]
      end
  | Rejected err => [ErrorLine "[!] Failed to fetch from crt.sh:" (message err)]
  end.
Proof.
  unfold Subfinder.fetchSubdomains.
  remember (Subfinder.fetchUrl domain) as url.
  remember Subfinder.fetchConfig as config.
  cbn. destruct (h _ (axios_get url config)) as [d|e]; cbn.
  - destruct (Subfinder.collect domain d); reflexivity.
  - reflexivity.
Qed.

Lemma addEntries_app l1 : forall l2 subs,
  Subfinder.addEntries domain (l1 ++ l2) subs =
  match Subfinder.addEntries domain l1 subs with
  | Fulfilled subs' => Subfinder.addEntries domain l2 subs'
  | Rejected err => Rejected err
  end.
Proof.
  induction l1 as [|e l1 IH]; intros l2 subs; simpl; [reflexivity|].
  destruct (Subfinder.addEntry domain subs e); [apply IH|reflexivity].
Qed.

Lemma addEntries_fulfilled entries : forall subs,
  Forall (fun e => isFulfilled (Subfinder.namesOf e) = true) entries ->
  exists subs', Subfinder.addEntries domain entries subs = Fulfilled subs'.
Proof.
  induction entries as [|e entries IH]; intros subs H; simpl; [eauto|].
  inversion H as [|e' l He Hl]; subst.
  unfold Subfinder.addEntry.
  destruct (Subfinder.namesOf e); [apply IH, Hl|discriminate].
Qed.

Lemma addEntries_rejected entries : forall subs e,
  In e entries -> isFulfilled (Subfinder.namesOf e) = false ->
  exists err, Subfinder.addEntries domain entries subs = Rejected err.
Proof.
  induction entries as [|e0 entries IH]; intros subs e Hin He; [destruct Hin|].
  simpl. unfold Subfinder.addEntry.
  destruct (Subfinder.namesOf e0) as [names|err] eqn:E0; [|eauto].
  destruct Hin as [->|Hin]; [rewrite E0 in He; discriminate|].
  eapply IH; eauto.
Qed.

Lemma collect_sorted data subs :
  Subfinder.collect domain data = Fulfilled subs ->
  NoDup subs /\ StronglySorted (fun a b => String.leb a b = true) subs.
Proof.
  unfold Subfinder.collect.
  destruct data as [| | b | z | str | entries | fields];
    try (intros [= <-]; split; constructor).
  destruct (Subfinder.addEntries domain entries []) as [raw|] eqn:E; [|discriminate].
  intros [= <-]. split; [|apply sortStrings_sorted].
  eapply Permutation_NoDup; [apply Permutation_sym, sortStrings_perm|].
  eapply subfinder_addEntries_NoDup; [constructor|exact E].
Qed.

Lemma normalize_kept n x :
  Subfinder.normalize domain n = Some x ->
  toLowerCase x = x /\ endsWith x (toLowerCase domain) = true.
Proof.
  unfold Subfinder.normalize.
  destruct (endsWith (replaceWildcard (trim n)) domain) eqn:E; [|discriminate].
  intros [= <-]. split; [apply toLowerCase_idem|].
  apply endsWith_iff in E as [p ->].
  rewrite toLowerCase_app. apply endsWith_app.
Qed.

Lemma collect_kept data subs :
  Subfinder.collect domain data = Fulfilled subs ->
  Forall (fun x => toLowerCase x = x /\ endsWith x (toLowerCase domain) = true) subs.
Proof.
  intros H. destruct data as [| | b | z | str | entries | fields];
    try (injection H as <-; constructor).
  apply Forall_forall. intros x Hx.
  apply (subfinder_collect_In domain entries subs H) in Hx
    as (entry & names & n & _ & _ & _ & Hn).
  eapply normalize_kept; eauto.
Qed.

End SubfinderFetch.

(** X2: the array that [fetchSubdomains] of subfinder.js is fulfilled with
    holds each name once and in strictly ascending code-unit order. *)
Theorem fetchSubdomains_sorted (h : Handler) (domain : string) :
  exists subs,
    run h (Subfinder.fetchSubdomains domain) = Fulfilled subs /\
    NoDup subs /\
    StronglySorted (fun a b => String.ltb a b = true) subs.
Proof.
  rewrite subfinder_fetch_run.
  destruct (h _ (axios_get _ _)) as [data|err];
    [|exists []; repeat split; constructor].
  destruct (Subfinder.collect domain data) as [subs|err] eqn:E;
    [|exists []; repeat split; constructor].
  destruct (collect_sorted domain data subs E) as [Hnd Hs].
  exists subs. split; [reflexivity|]. split; [exact Hnd|].
  now apply sorted_strict.
Qed.

(** X3: when [res.data] is an array whose entries can all be read, the
    names returned are exactly those that the inner loop keeps, over every
    line of every entry. *)
Theorem fetchSubdomains_members (h : Handler) (domain : string)
  (entries : list JsValue) :
  h _ (axios_get (Subfinder.fetchUrl domain) Subfinder.fetchConfig)
    = Fulfilled (JArray entries) ->
  Forall (fun e => isFulfilled (Subfinder.namesOf e) = true) entries ->
  exists subs,
    run h (Subfinder.fetchSubdomains domain) = Fulfilled subs /\
    forall x, In x subs <->
              exists entry n, In entry entries /\ In n (entryNames entry) /\
                              Subfinder.normalize domain n = Some x.
Proof.
  intros Hdata Hall. rewrite subfinder_fetch_run, Hdata.
  destruct (addEntries_fulfilled domain entries [] Hall) as [raw Hraw].
  assert (Hc : Subfinder.collect domain (JArray entries) = Fulfilled (sortStrings raw)).
  { unfold Subfinder.collect. now rewrite Hraw. }
  rewrite Hc. exists (sortStrings raw). split; [reflexivity|].
  intros x. rewrite (subfinder_collect_In domain entries _ Hc x). split.
  - intros (entry & names & n & He & Hns & Hn & Hk).
    exists entry, n. unfold entryNames. rewrite Hns. auto.
  - intros (entry & n & He & Hn & Hk).
    rewrite Forall_forall in Hall. specialize (Hall entry He).
    unfold entryNames in Hn.
    destruct (Subfinder.namesOf entry) as [names|] eqn:Hns; [|discriminate].
    exists entry, names, n. auto.
Qed.

Lemma fetchSubdomains_members_witness :
  exists subs,
    run certNetwork (Subfinder.fetchSubdomains "example.com") = Fulfilled subs /\
    (In "example.com" subs <->
     exists entry n,
       In entry [JObject [("name_value",
                   JString (joinLines ["*.example.com"; "WWW.example.com ";
                                       "api.example.com"; "evilexample.com"]))]] /\
       In n (entryNames entry) /\
       Subfinder.normalize "example.com" n = Some "example.com").
Proof.
  destruct (fetchSubdomains_members certNetwork "example.com"
              [JObject [("name_value",
                 JString (joinLines ["*.example.com"; "WWW.example.com ";
                                     "api.example.com"; "evilexample.com"]))]]
              eq_refl) as [subs [Hrun Hin]].
  - repeat constructor.
  - exists subs. split; [exact Hrun|apply Hin].
Defined.

(** X4: every name that [fetchSubdomains] of subfinder.js returns is in
    lowercase and ends with the lowercased domain. *)
Theorem fetchSubdomains_lowercase_suffix (h : Handler) (domain : string) :
  exists subs,
    run h (Subfinder.fetchSubdomains domain) = Fulfilled subs /\
    Forall (fun x => toLowerCase x = x /\ endsWith x (toLowerCase domain) = true) subs.
Proof.
  rewrite subfinder_fetch_run.
  destruct (h _ (axios_get _ _)) as [data|err]; [|exists []; split; constructor].
  destruct (Subfinder.collect domain data) as [subs|err] eqn:E;
    [|exists []; split; constructor].
  exists subs. split; [reflexivity|]. eapply collect_kept; eauto.
Qed.

(** X5: one entry that cannot be read ([null], or a [name_value] that is
    neither empty nor a string) makes [fetchSubdomains] of subfinder.js
    return the empty list, whatever the other entries hold, after one
    error line. *)
Theorem fetchSubdomains_all_or_nothing (h : Handler) (domain : string)
  (entries : list JsValue) (e : JsValue) :
  h _ (axios_get (Subfinder.fetchUrl domain) Subfinder.fetchConfig)
    = Fulfilled (JArray entries) ->
  In e entries ->
  isFulfilled (Subfinder.namesOf e) = false ->
  run h (Subfinder.fetchSubdomains domain) = Fulfilled [] /\
  exists err,
    output h (Subfinder.fetchSubdomains domain) =
    [ErrorLine "[!] Failed to fetch from crt.sh:" (message err)].
Proof.
  intros Hdata Hin He.
  rewrite subfinder_fetch_run, subfinder_fetch_output, Hdata.
  destruct (addEntries_rejected domain entries [] e Hin He) as [err Herr].
  unfold Subfinder.collect. rewrite Herr. split; [reflexivity|eauto].
Qed.

Lemma fetchSubdomains_all_or_nothing_witness :
  In JNull [JObject [("name_value", JString "api.example.com")]; JNull] /\
  isFulfilled (Subfinder.namesOf JNull) = false /\
  run brokenNetwork (Subfinder.fetchSubdomains "example.com") = Fulfilled [].
Proof.
  split; [right; left; reflexivity|]. split; [reflexivity|].
  apply (fetchSubdomains_all_or_nothing brokenNetwork "example.com"
           [JObject [("name_value", JString "api.example.com")]; JNull] JNull eq_refl).
  - right; left; reflexivity.
  - reflexivity.
Defined.

Lemma answering_fetch_run (domain : string) (data : JsValue) :
  run (answering data) (Subfinder.fetchSubdomains domain) =
  match Subfinder.collect domain data with
  | Fulfilled subs => Fulfilled subs
  | Rejected _ => Fulfilled []
  end.
Proof. now rewrite subfinder_fetch_run. Qed.

Lemma normalize_empty_name (domain : string) :
  domain <> EmptyString -> Subfinder.normalize domain EmptyString = None.
Proof.
  intros H. unfold Subfinder.normalize. cbn.
  destruct domain; [now elim H|reflexivity].
Qed.

(** X6: for a domain that is not empty, an entry without [name_value] (or
    with an empty, [null], [false] or zero one) is passed over by
    [fetchSubdomains] of subfinder.js: the list returned is the one
    obtained without that entry. *)
Theorem fetchSubdomains_skips_unnamed (domain : string)
  (before after : list JsValue) (e nv : JsValue) :
  domain <> EmptyString ->
  get_name_value e = Fulfilled nv ->
  truthy nv = false ->
  run (answering (JArray (before ++ e :: after))) (Subfinder.fetchSubdomains domain) =
  run (answering (JArray (before ++ after))) (Subfinder.fetchSubdomains domain).
Proof.
  intros Hd Hnv Hf. rewrite !answering_fetch_run. unfold Subfinder.collect.
  rewrite !addEntries_app.
  destruct (Subfinder.addEntries domain before []) as [subs|err]; [|reflexivity].
  simpl. unfold Subfinder.addEntry, Subfinder.namesOf.
  rewrite Hnv. unfold orElse. rewrite Hf. cbn.
  now rewrite (normalize_empty_name domain Hd).
Qed.

Lemma fetchSubdomains_skips_unnamed_witness :
  "example.com" <> EmptyString /\
  run sparseNetwork (Subfinder.fetchSubdomains "example.com") =
  run (answering (JArray [JObject [("name_value", JString "api.example.com")]]))
      (Subfinder.fetchSubdomains "example.com").
Proof.
  split; [discriminate|].
  apply (fetchSubdomains_skips_unnamed "example.com"
           [JObject [("name_value", JString "api.example.com")]] []
           (JObject [("common_name", JString "example.com")]) JUndefined).
  - discriminate.
  - reflexivity.
  - reflexivity.
Defined.

Lemma members_equal (l1 l2 : list string) :
  NoDup l1 -> NoDup l2 ->
  StronglySorted (fun a b => String.leb a b = true) l1 ->
  StronglySorted (fun a b => String.leb a b = true) l2 ->
  (forall x, In x l1 <-> In x l2) -> l1 = l2.
Proof.
  intros N1 N2 S1 S2 Hm.
  apply (sorted_unique String.leb); try assumption.
  - now apply NoDup_Permutation.
  - intros a b _ _. apply String.leb_antisym.
Qed.

(** X7: the list that [fetchSubdomains] of subfinder.js returns does not
    depend on the order in which the certificate entries arrive. *)
Theorem fetchSubdomains_entry_order (domain : string) (entries1 entries2 : list JsValue) :
  Permutation entries1 entries2 ->
  run (answering (JArray entries1)) (Subfinder.fetchSubdomains domain) =
  run (answering (JArray entries2)) (Subfinder.fetchSubdomains domain).
Proof.
  intros Hp. rewrite !answering_fetch_run.
  destruct (Forall_Exists_dec (fun e => isFulfilled (Subfinder.namesOf e) = true)
              (fun e => bool_dec _ true) entries1) as [Hall|Hex].
  - assert (Hall2 : Forall (fun e => isFulfilled (Subfinder.namesOf e) = true) entries2)
      by (eapply Permutation_Forall; eauto).
    destruct (addEntries_fulfilled domain entries1 [] Hall) as [raw1 H1].
    destruct (addEntries_fulfilled domain entries2 [] Hall2) as [raw2 H2].
    assert (C1 : Subfinder.collect domain (JArray entries1) = Fulfilled (sortStrings raw1))
      by (unfold Subfinder.collect; now rewrite H1).
    assert (C2 : Subfinder.collect domain (JArray entries2) = Fulfilled (sortStrings raw2))
      by (unfold Subfinder.collect; now rewrite H2).
    rewrite C1, C2. f_equal.
    destruct (collect_sorted domain _ _ C1) as [N1 S1].
    destruct (collect_sorted domain _ _ C2) as [N2 S2].
    apply members_equal; try assumption.
    intros x. rewrite (subfinder_collect_In domain _ _ C1 x),
                      (subfinder_collect_In domain _ _ C2 x).
    split; intros (entry & names & n & He & Hrest); exists entry, names, n;
      (split; [|exact Hrest]).
    + eapply Permutation_in; eauto.
    + eapply Permutation_in; [apply Permutation_sym|]; eauto.
  - apply Exists_exists in Hex as (e & He & Hrej).
    apply not_true_is_false in Hrej.
    assert (He2 : In e entries2) by (eapply Permutation_in; eauto).
    destruct (addEntries_rejected domain entries1 [] e He Hrej) as [err1 E1].
    destruct (addEntries_rejected domain entries2 [] e He2 Hrej) as [err2 E2].
    unfold Subfinder.collect. now rewrite E1, E2.
Qed.

Lemma fetchSubdomains_entry_order_witness :
  Permutation
    [JObject [("name_value", JString "b.example.com")];
     JObject [("name_value", JString "a.example.com")]]
    [JObject [("name_value", JString "a.example.com")];
     JObject [("name_value", JString "b.example.com")]] /\
  run (answering (JArray [JObject [("name_value", JString "b.example.com")];
                          JObject [("name_value", JString "a.example.com")]]))
      (Subfinder.fetchSubdomains "example.com") =
  run (answering (JArray [JObject [("name_value", JString "a.example.com")];
                          JObject [("name_value", JString "b.example.com")]]))
      (Subfinder.fetchSubdomains "example.com").
Proof.
  split; [apply perm_swap|].
  apply (fetchSubdomains_entry_order "example.com"). apply perm_swap.
Defined.

(* ================================================================== *)
(** * The candidate list of subdomain.js *)
(* ================================================================== *)

Section DomainJsFetch.
Variable h : Handler.
Variable domain : string.

Lemma domainjs_fetch_output :
  output h (DomainJs.fetchSubdomains domain) =
  InfoName "[i] Fetching subdomains for # from crt.sh..." domain ::
  match h _ (axios_get (DomainJs.fetchUrl domain) [("timeout", JNumber 20000)]) with
  | Fulfilled data =>
      match DomainJs.collect domain data with
      | Fulfilled _ => []
      | Rejected err => [ErrorLine "[!] Error fetching crt.sh:" (message err)]
      end
  | Rejected err => [ErrorLine "[!] Error fetching crt.sh:" (message err)]
  end.
Proof.
  unfold DomainJs.fetchSubdomains.
  remember (DomainJs.fetchUrl domain) as url.
  cbn. destruct (h _ (axios_get url _)) as [d|e]; cbn.
  - destruct (DomainJs.collect domain d); reflexivity.
  - reflexivity.
Qed.

Lemma string_app_inv_length (p1 : string) : forall p2 s1 s2,
  String.length p1 = String.length p2 ->
  (p1 ++ s1)%string = (p2 ++ s2)%string -> s1 = s2.
Proof.
  induction p1 as [|c p1 IH]; intros [|c2 p2] s1 s2 Hl H; simpl in *;
    try discriminate; [exact H|].
  injection H as _ H. injection Hl as Hl. eapply IH; eauto.
Qed.

Lemma toLowerCase_length s : String.length (toLowerCase s) = String.length s.
Proof. induction s as [|c s IH]; simpl; congruence. Qed.

(** A lowercase string has lowercase suffixes only. *)
Lemma lowercase_suffix x d :
  toLowerCase x = x -> endsWith x d = true -> toLowerCase d = d.
Proof.
  intros Hx Hd. apply endsWith_iff in Hd as [p ->].
  rewrite toLowerCase_app in Hx.
  eapply string_app_inv_length; [apply toLowerCase_length|exact Hx].
Qed.

Lemma domainjs_normalize_kept sub x :
  DomainJs.normalize domain sub = Some x ->
  x <> EmptyString /\ toLowerCase x = x /\ trim x = x /\ endsWith x domain = true.
Proof.
  unfold DomainJs.normalize.
  destruct (nonEmpty (toLowerCase (trim sub))) eqn:Hn; [|discriminate].
  destruct (endsWith (toLowerCase (trim sub)) domain) eqn:He; [|discriminate].
  intros [= <-]. repeat split.
  - unfold nonEmpty in Hn. apply negb_true_iff in Hn. now apply String.eqb_neq.
  - apply toLowerCase_idem.
  - now rewrite <- toLowerCase_trim, trim_idem.
  - exact He.
Qed.

Lemma domainjs_addNames_keeps (P : string -> Prop) parts :
  (forall sub x, DomainJs.normalize domain sub = Some x -> P x) ->
  forall subs, NoDup subs /\ Forall P subs ->
               NoDup (DomainJs.addNames domain parts subs) /\
               Forall P (DomainJs.addNames domain parts subs).
Proof.
  intros HP. unfold DomainJs.addNames.
  induction parts as [|sub parts IH]; intros subs [Hnd Hall]; simpl; [now split|].
  apply IH. destruct (DomainJs.normalize domain sub) as [x|] eqn:E; [|now split].
  split; [now apply Set_add_NoDup|].
  apply Forall_forall. intros y Hy. apply Set_add_In in Hy as [->|Hy].
  - eapply HP; eauto.
  - rewrite Forall_forall in Hall. now apply Hall.
Qed.

Lemma domainjs_addRows_keeps (P : string -> Prop) rows :
  (forall sub x, DomainJs.normalize domain sub = Some x -> P x) ->
  forall subs subs', NoDup subs /\ Forall P subs ->
    DomainJs.addRows domain rows subs = Fulfilled subs' ->
    NoDup subs' /\ Forall P subs'.
Proof.
  intros HP. induction rows as [|row rows IH]; intros subs subs' Hs; simpl.
  - now intros [= <-].
  - unfold DomainJs.addRow.
    destruct (DomainJs.partsOf row) as [parts|]; [|discriminate].
    apply IH. now apply domainjs_addNames_keeps.
Qed.

Lemma domainjs_collect_keeps (P : string -> Prop) data subs :
  (forall sub x, DomainJs.normalize domain sub = Some x -> P x) ->
  DomainJs.collect domain data = Fulfilled subs ->
  NoDup subs /\ Forall P subs.
Proof.
  intros HP. unfold DomainJs.collect.
  destruct (DomainJs.iterate data) as [rows|]; [|discriminate].
  apply domainjs_addRows_keeps; [exact HP|split; constructor].
Qed.

Lemma domainjs_addRows_rejected rows : forall subs row,
  In row rows -> isFulfilled (DomainJs.partsOf row) = false ->
  exists err, DomainJs.addRows domain rows subs = Rejected err.
Proof.
  induction rows as [|r0 rows IH]; intros subs row Hin Hr; [destruct Hin|].
  simpl. unfold DomainJs.addRow.
  destruct (DomainJs.partsOf r0) as [parts|err] eqn:E0; [|eauto].
  destruct Hin as [->|Hin]; [rewrite E0 in Hr; discriminate|].
  eapply IH; eauto.
Qed.

End DomainJsFetch.

(** X8: every name that [fetchSubdomains] of subdomain.js returns is not
    empty, in lowercase, without white space at either end, ends with the
    domain as it was typed, and occurs once in the list. *)
Theorem domainjs_fetch_names (h : Handler) (domain : string) :
  exists subs,
    run h (DomainJs.fetchSubdomains domain) = Fulfilled subs /\
    NoDup subs /\
    Forall (fun x => x <> EmptyString /\ toLowerCase x = x /\ trim x = x /\
                     endsWith x domain = true) subs.
Proof.
  rewrite domainjs_fetch_run.
  destruct (h _ (axios_get _ _)) as [data|err];
    [|exists []; repeat split; constructor].
  destruct (DomainJs.collect domain data) as [subs|err] eqn:E;
    [|exists []; repeat split; constructor].
  exists subs. split; [reflexivity|].
  eapply domainjs_collect_keeps; [|exact E].
  apply domainjs_normalize_kept.
Qed.

(** X9: subdomain.js does not lowercase the domain: when the domain typed
    holds a capital letter, [fetchSubdomains] returns the empty list
    whatever the certificate log answers. *)
Theorem domainjs_fetch_capital_domain (h : Handler) (domain : string) :
  toLowerCase domain <> domain ->
  run h (DomainJs.fetchSubdomains domain) = Fulfilled [].
Proof.
  intros Hcap. rewrite domainjs_fetch_run.
  destruct (h _ (axios_get _ _)) as [data|err]; [|reflexivity].
  destruct (DomainJs.collect domain data) as [subs|err] eqn:E; [|reflexivity].
  destruct (domainjs_collect_keeps domain _ data subs
              (domainjs_normalize_kept domain) E) as [_ Hall].
  destruct subs as [|x subs]; [reflexivity|].
  inversion Hall as [|x' l (_ & Hlow & _ & Hend) _]; subst.
  elim Hcap. eapply lowercase_suffix; eauto.
Qed.

Lemma domainjs_fetch_capital_domain_witness :
  toLowerCase "Example.com" <> "Example.com" /\
  run certNetwork (DomainJs.fetchSubdomains "Example.com") = Fulfilled [].
Proof.
  split; [discriminate|].
  apply (domainjs_fetch_capital_domain certNetwork "Example.com"). discriminate.
Defined.

(** X10: in subdomain.js one row that cannot be split (no [name_value], or
    one that is not a string) makes [fetchSubdomains] return the empty
    list, whatever the other rows hold, after the error line. *)
Theorem domainjs_fetch_all_or_nothing (h : Handler) (domain : string)
  (rows : list JsValue) (row : JsValue) :
  h _ (axios_get (DomainJs.fetchUrl domain) [("timeout", JNumber 20000)])
    = Fulfilled (JArray rows) ->
  In row rows ->
  isFulfilled (DomainJs.partsOf row) = false ->
  run h (DomainJs.fetchSubdomains domain) = Fulfilled [] /\
  exists err,
    output h (DomainJs.fetchSubdomains domain) =
    [InfoName "[i] Fetching subdomains for # from crt.sh..." domain;
     ErrorLine "[!] Error fetching crt.sh:" (message err)].
Proof.
  intros Hdata Hin Hrow.
  rewrite domainjs_fetch_run, domainjs_fetch_output, Hdata.
  destruct (domainjs_addRows_rejected domain rows [] row Hin Hrow) as [err Herr].
  unfold DomainJs.collect. cbn. rewrite Herr. split; [reflexivity|eauto].
Qed.

Lemma domainjs_fetch_all_or_nothing_witness :
  In (JObject [("common_name", JString "example.com")])
     [JObject [("name_value", JString "api.example.com")];
      JObject [("common_name", JString "example.com")]] /\
  isFulfilled (DomainJs.partsOf (JObject [("common_name", JString "example.com")])) = false /\
  run sparseNetwork (DomainJs.fetchSubdomains "example.com") = Fulfilled [] /\
  run sparseNetwork (Subfinder.fetchSubdomains "example.com") = Fulfilled ["api.example.com"].
Proof.
  split; [right; left; reflexivity|]. split; [reflexivity|]. split; [|reflexivity].
  apply (domainjs_fetch_all_or_nothing sparseNetwork "example.com"
           [JObject [("name_value", JString "api.example.com")];
            JObject [("common_name", JString "example.com")]]
           (JObject [("common_name", JString "example.com")]) eq_refl).
  - right; left; reflexivity.
  - reflexivity.
Defined.

(* ================================================================== *)
(** * resolveSubdomains and the rows of writeCSV *)
(* ================================================================== *)

Section MapFacts.

Lemma Map_set_keys k v m :
  map fst (DomainJs.Map_set k v m) = Set_add k (map fst m).
Proof.
  unfold Set_add. induction m as [|[k' v'] m IH]; simpl; [reflexivity|].
  rewrite (String.eqb_sym k k').
  destruct (k' =? k)%string eqn:E; simpl.
  - apply String.eqb_eq in E. now subst.
  - rewrite IH. now destruct (existsb (String.eqb k) (map fst m)).
Qed.

Lemma Map_set_length k v m :
  List.length (DomainJs.Map_set k v m) <= S (List.length m).
Proof.
  induction m as [|[k' v'] m IH]; simpl; [lia|].
  destruct (k' =? k)%string; simpl; lia.
Qed.

Lemma Map_set_In k v m k' v' :
  NoDup (map fst m) ->
  In (k', v') (DomainJs.Map_set k v m) <->
  (k' = k /\ v' = v) \/ (k' <> k /\ In (k', v') m).
Proof.
  induction m as [|[k0 v0] m IH]; intros Hnd; simpl.
  - split.
    + intros [[= <- <-]|[]]. now left.
    + intros [[-> ->]|[_ []]]. now left.
  - inversion Hnd as [|x l Hk0 Hnd']; subst.
    destruct (k0 =? k)%string eqn:E; simpl.
    + apply String.eqb_eq in E. subst k0. split.
      * intros [[= <- <-]|Hin]; [now left|].
        right. split; [|now right].
        intros ->. apply Hk0. now apply (in_map fst) in Hin.
      * intros [[-> ->]|[Hne [[= -> ->]|Hin]]]; [now left|now elim Hne|now right].
    + apply String.eqb_neq in E. rewrite (IH Hnd'). split.
      * intros [[= <- <-]|[[-> ->]|[Hne Hin]]].
        -- right. split; [exact E|now left].
        -- now left.
        -- right. split; [exact Hne|now right].
      * intros [[-> ->]|[Hne [[= -> ->]|Hin]]].
        -- right. now left.
        -- now left.
        -- right. right. now split.
Qed.

Lemma Set_addAll_fresh l : forall s, NoDup (s ++ l) -> Set_addAll l s = s ++ l.
Proof.
  unfold Set_addAll. induction l as [|x l IH]; intros s H; simpl.
  - now rewrite app_nil_r.
  - assert (Hx : ~ In x s).
    { intros Hin. apply NoDup_remove_2 in H. apply H, in_or_app. now left. }
    unfold Set_add at 2.
    destruct (existsb (String.eqb x) s) eqn:E;
      [apply existsb_eqb_In in E; contradiction|].
    rewrite IH; rewrite <- app_assoc; [reflexivity|exact H].
Qed.

End MapFacts.

Section ResolveSubdomains.
Variable h : Handler.

Lemma resolveLoop_run subdomains : forall liveMap,
  run h (DomainJs.resolveLoop subdomains liveMap) =
  Fulfilled (fold_left (liveStep h) subdomains liveMap).
Proof.
  induction subdomains as [|sub rest IH]; intros liveMap; [reflexivity|].
  cbn. unfold liveStep at 2.
  destruct (h _ (dns_resolve4 sub)) as [ips|err]; cbn; apply IH.
Qed.

Lemma resolveLoop_output subdomains : forall liveMap,
  output h (DomainJs.resolveLoop subdomains liveMap) =
  flat_map (resolvedLine h) subdomains.
Proof.
  induction subdomains as [|sub rest IH]; intros liveMap; [reflexivity|].
  cbn. unfold resolvedLine at 1.
  destruct (h _ (dns_resolve4 sub)) as [ips|err]; cbn; now rewrite IH.
Qed.

Lemma liveStep_keys liveMap sub :
  map fst (liveStep h liveMap sub) =
  Set_addAll (resolved4 h [sub]) (map fst liveMap).
Proof.
  unfold liveStep, resolved4. simpl.
  destruct (h _ (dns_resolve4 sub)); simpl; [apply Map_set_keys|reflexivity].
Qed.

Lemma live_keys subdomains : forall liveMap,
  map fst (fold_left (liveStep h) subdomains liveMap) =
  Set_addAll (resolved4 h subdomains) (map fst liveMap).
Proof.
  induction subdomains as [|sub rest IH]; intros liveMap; [reflexivity|].
  simpl fold_left. rewrite IH, liveStep_keys.
  unfold resolved4, Set_addAll. simpl.
  destruct (isFulfilled (h _ (dns_resolve4 sub))); reflexivity.
Qed.

Lemma live_length subdomains : forall liveMap,
  List.length (fold_left (liveStep h) subdomains liveMap) <=
  List.length liveMap + List.length subdomains.
Proof.
  induction subdomains as [|sub rest IH]; intros liveMap; simpl; [lia|].
  specialize (IH (liveStep h liveMap sub)).
  assert (List.length (liveStep h liveMap sub) <= S (List.length liveMap)).
  { unfold liveStep. destruct (h _ (dns_resolve4 sub)); [apply Map_set_length|lia]. }
  lia.
Qed.

(** The entries of the map are the names seen so far that resolved, each
    with its answer. *)
Lemma live_entries subdomains : forall liveMap seen,
  NoDup (map fst liveMap) ->
  (forall k v, In (k, v) liveMap <-> In k seen /\ h _ (dns_resolve4 k) = Fulfilled v) ->
  forall k v,
    In (k, v) (fold_left (liveStep h) subdomains liveMap) <->
    In k (seen ++ subdomains) /\ h _ (dns_resolve4 k) = Fulfilled v.
Proof.
  induction subdomains as [|sub rest IH]; intros liveMap seen Hnd Hm k v.
  - simpl. rewrite app_nil_r. apply Hm.
  - simpl fold_left.
    replace (seen ++ sub :: rest) with ((seen ++ [sub]) ++ rest)
      by now rewrite <- app_assoc.
    apply IH.
    + rewrite liveStep_keys. now apply Set_addAll_NoDup.
    + clear k v. intros k v. unfold liveStep. rewrite in_app_iff. simpl.
      destruct (h _ (dns_resolve4 sub)) as [ips|err] eqn:E.
      * rewrite (Map_set_In sub ips liveMap k v Hnd), Hm. split.
        -- intros [[-> ->]|[Hne [Hs Hk]]]; [split; auto|split; auto].
        -- intros [[Hs|[<-|[]]] Hk].
           ++ destruct (string_dec k sub) as [->|Hne].
              ** left. split; [reflexivity|congruence].
              ** right. auto.
           ++ left. split; [reflexivity|congruence].
      * rewrite Hm. split.
        -- intros [Hs Hk]. auto.
        -- intros [[Hs|[<-|[]]] Hk]; [auto|congruence].
Qed.

Lemma resolveSubdomains_spec subdomains :
  exists liveMap,
    run h (DomainJs.resolveSubdomains subdomains) = Fulfilled liveMap /\
    NoDup (map fst liveMap) /\
    (forall k v, In (k, v) liveMap <->
                 In k subdomains /\ h _ (dns_resolve4 k) = Fulfilled v) /\
    map fst liveMap = Set_addAll (resolved4 h subdomains) [] /\
    List.length liveMap <= List.length subdomains.
Proof.
  unfold DomainJs.resolveSubdomains. rewrite resolveLoop_run.
  eexists. split; [reflexivity|]. split; [|split; [|split]].
  - rewrite live_keys. apply Set_addAll_NoDup. constructor.
  - intros k v.
    apply (live_entries subdomains [] []); [constructor|].
    intros k' v'. simpl. tauto.
  - apply live_keys.
  - apply (live_length subdomains []).
Qed.

End ResolveSubdomains.

(** X11: [resolveSubdomains] is always fulfilled; the map holds one entry
    per distinct name whose IPv4 query was fulfilled, with the addresses of
    that answer, and nothing else, so never more entries than names. *)
Theorem resolveSubdomains_map (h : Handler) (subdomains : list string) :
  exists liveMap,
    run h (DomainJs.resolveSubdomains subdomains) = Fulfilled liveMap /\
    NoDup (map fst liveMap) /\
    (forall k v, In (k, v) liveMap <->
                 In k subdomains /\ h _ (dns_resolve4 k) = Fulfilled v) /\
    List.length liveMap <= List.length subdomains.
Proof.
  destruct (resolveSubdomains_spec h subdomains) as (m & H1 & H2 & H3 & _ & H5).
  exists m. auto.
Qed.

(** X12: on names that are all different, the map of [resolveSubdomains]
    lists the names that resolved in the order of the input, each with the
    answer of its query. *)
Theorem resolveSubdomains_order (h : Handler) (subdomains : list string) :
  NoDup subdomains ->
  run h (DomainJs.resolveSubdomains subdomains) =
  Fulfilled (map (fun sub => (sub, found (h _ (dns_resolve4 sub))))
                 (resolved4 h subdomains)).
Proof.
  intros Hnd.
  destruct (resolveSubdomains_spec h subdomains) as (m & -> & _ & Hm & Hk & _).
  f_equal.
  rewrite Set_addAll_fresh in Hk by (simpl; now apply NoDup_filter).
  simpl in Hk. rewrite <- Hk.
  assert (Hv : Forall (fun kv => h _ (dns_resolve4 (fst kv)) = Fulfilled (snd kv)) m).
  { apply Forall_forall. intros [k v] Hin. now apply Hm in Hin. }
  clear - Hv. induction Hv as [|[k v] m Hkv _ IH]; simpl; [reflexivity|].
  simpl in Hkv. rewrite Hkv. simpl. now f_equal.
Qed.

Lemma resolveSubdomains_order_witness :
  NoDup batch /\
  run batchNetwork (DomainJs.resolveSubdomains batch) = Fulfilled batchLive.
Proof.
  assert (H : NoDup batch).
  { unfold batch. repeat constructor; simpl; intuition discriminate. }
  split; [exact H|].
  exact (resolveSubdomains_order batchNetwork batch H).
Defined.

(** X13: [resolveSubdomains] makes one [dns.resolve4] call per name of its
    input, in input order and repeated for a repeated name, and prints one
    line per fulfilled call and nothing for a rejected one. *)
Theorem resolveSubdomains_calls (h : Handler) (subdomains : list string) :
  trace h (DomainJs.resolveSubdomains subdomains) = map resolve4Call subdomains /\
  output h (DomainJs.resolveSubdomains subdomains) =
    flat_map (resolvedLine h) subdomains.
Proof.
  unfold DomainJs.resolveSubdomains. split.
  - apply resolveLoop_trace.
  - apply resolveLoop_output.
Qed.

(** X14: the rows that [writeCSV] builds from the map of
    [resolveSubdomains] pair each name that resolved with each address of
    its answer: a name whose query was rejected has no row. *)
Theorem csvRows_after_resolve (h : Handler) (subdomains : list string) :
  exists liveMap,
    run h (DomainJs.resolveSubdomains subdomains) = Fulfilled liveMap /\
    forall host addr,
      In {| DomainJs.subdomain := host; DomainJs.ip := addr |}
         (DomainJs.csvRows liveMap) <->
      In host subdomains /\
      exists ips, h _ (dns_resolve4 host) = Fulfilled ips /\ In addr ips.
Proof.
  destruct (resolveSubdomains_spec h subdomains) as (m & H1 & _ & Hm & _).
  exists m. split; [exact H1|].
  intros host addr. unfold DomainJs.csvRows. rewrite in_flat_map. split.
  - intros ([k ips] & Hin & Hrow).
    apply in_map_iff in Hrow as (a & [= <- <-] & Ha).
    apply Hm in Hin as [Hs Hk]. eauto.
  - intros (Hs & ips & Hk & Ha).
    exists (host, ips). split; [now apply Hm|].
    apply in_map_iff. now exists addr.
Qed.

(* ================================================================== *)
(** * concurrencyMap at its edges *)
(* ================================================================== *)

Section SchedulerEdges.
Context {A R : Type}.
Variable items : list A.
Variable mapper : nat -> A -> Called R.

Local Notation "'State'" := (@Subfinder.State A R).

Lemma settleNext_idle n (st : State) :
  Subfinder.workers st = [] -> Subfinder.settleNext items mapper n st = st.
Proof.
  intros H. unfold Subfinder.settleNext, Subfinder.awaitingIds. rewrite H.
  simpl. now destruct n.
Qed.

Lemma exec_zero sched :
  Subfinder.exec items mapper 0 sched = Subfinder.start items mapper 0.
Proof.
  unfold Subfinder.exec.
  induction sched as [|n sched IH] using rev_ind; [reflexivity|].
  rewrite fold_left_app. simpl. rewrite IH. now apply settleNext_idle.
Qed.

(** With one worker the records are pushed in input order. *)
Lemma single_worker_order (st : State) :
  Subfinder.reachable items mapper 1 st ->
  exists w, Subfinder.workers st = [w] /\
            Subfinder.out st ++ owedBy w =
            firstn (Subfinder.index st) (expected items mapper).
Proof.
  induction 1 as [|st st' Hreach (w & Hw & Ho) Hstep].
  - unfold Subfinder.start. simpl.
    pose proof (enterLoop_spec items mapper
                  {| Subfinder.index := 0; Subfinder.out := [];
                     Subfinder.workers := []; Subfinder.invoked := [] |}) as Hs.
    destruct (Subfinder.enterLoop items mapper _) as [st' w].
    cbn [Subfinder.index Subfinder.out Subfinder.workers] in Hs.
    destruct Hs as (_ & Hws & _ & (pushed & Hout & Hexp) & _).
    exists w. cbn [Subfinder.index Subfinder.out Subfinder.workers].
    rewrite Hws, Hout, Hexp. simpl. now split.
  - destruct Hstep as [w0 st st' Hr]. unfold Subfinder.resume in Hr.
    rewrite Hw in Hr.
    destruct w0 as [|w0]; [|destruct w0; discriminate]. simpl in Hr.
    destruct w as [i x p|]; [|discriminate].
    match type of Hr with context [Subfinder.enterLoop items mapper ?s] =>
      pose proof (enterLoop_spec items mapper s) as Hs;
      destruct (Subfinder.enterLoop items mapper s) as [st2 wk] end.
    cbn [Subfinder.index Subfinder.out Subfinder.workers] in Hs.
    destruct Hs as (_ & Hws & _ & (pushed & Hout & Hexp) & _).
    injection Hr as <-. exists wk.
    cbn [Subfinder.index Subfinder.out Subfinder.workers].
    rewrite Hws, Hout, Hexp, <- Ho. simpl.
    split; [reflexivity|now rewrite <- !app_assoc].
Qed.

(** A settlement leaves what was pushed in place. *)
Lemma settleNext_out K n (st : State) :
  Subfinder.reachable items mapper K st ->
  exists tail,
    Subfinder.out (Subfinder.settleNext items mapper n st) = Subfinder.out st ++ tail /\
    (neverThrows mapper -> List.length tail <= 1).
Proof.
  intros Hreach.
  destruct (settleNext_spec items mapper K n st) as [[_ ->]|[_ Hs]].
  - exists []. rewrite app_nil_r. split; [reflexivity|simpl; lia].
  - destruct (reachable_spec items mapper K st Hreach) as [Hc _].
    destruct (step_out items mapper st _ Hc Hs) as (o & pushed & Ho).
    exists (o :: pushed). split; [exact Ho|].
    intros Hasync. pose proof (step_async items mapper Hasync st _ Hs) as Hl.
    rewrite Ho, length_app in Hl. simpl in *. lia.
Qed.

Hypothesis Hasync : neverThrows mapper.

Lemma spawn_index k : forall st : State,
  Subfinder.index (Subfinder.spawn items mapper k st) = Subfinder.index st + k.
Proof.
  induction k as [|k IH]; intros st; simpl; [lia|].
  unfold Subfinder.enterLoop.
  pose proof (turn_async mapper Hasync (skipn (Subfinder.index st) items) st) as [Hi _].
  destruct (Subfinder.turn mapper _ st) as [st' w]. simpl in Hi.
  rewrite IH. simpl. lia.
Qed.

End SchedulerEdges.

Lemma batchMapper_async : neverThrows batchMapper.
Proof.
  intros i x. unfold batchMapper. destruct (x =? "b.example.com")%string; eauto.
Qed.

(** X15: with a concurrency limit of 0 no worker is created: the promise
    of [concurrencyMap] is fulfilled at once with the empty array and the
    mapper is never called, whatever the items. *)
Theorem concurrencyMap_zero {A R : Type}
  (items : list A) (mapper : nat -> A -> Called R) (sched : list nat) :
  Subfinder.concurrencyMap items mapper 0 sched = Some [] /\
  Subfinder.invoked (Subfinder.exec items mapper 0 sched) = [].
Proof.
  unfold Subfinder.concurrencyMap. rewrite exec_zero. split; reflexivity.
Qed.

(** X16: with a concurrency limit of 1 the array returned lists the
    records in the order of the input. *)
Theorem concurrencyMap_sequential {A R : Type}
  (items : list A) (mapper : nat -> A -> Called R) (sched : list nat) :
  List.length items <= List.length sched ->
  Subfinder.concurrencyMap items mapper 1 sched = Some (expected items mapper).
Proof.
  intros Hsched.
  destruct (concurrencyMap_some items mapper 1 sched (le_n 1) Hsched) as (out & Hout).
  rewrite Hout. f_equal.
  unfold Subfinder.concurrencyMap in Hout.
  destruct (Subfinder.allDone _) eqn:Hdone; [|discriminate].
  injection Hout as <-.
  pose proof (exec_reachable items mapper 1 sched) as Hreach.
  destruct (single_worker_order items mapper _ Hreach) as (w & Hw & Ho).
  destruct (reachable_spec items mapper 1 _ Hreach) as [(_ & _ & Hc3) _].
  unfold Subfinder.allDone in Hdone. rewrite Hw in Hdone, Hc3.
  destruct w as [i x p|]; [discriminate|].
  simpl in Ho. rewrite app_nil_r in Ho. rewrite Ho.
  apply firstn_all2. rewrite expected_length. apply Hc3. now left.
Qed.

Lemma concurrencyMap_sequential_witness :
  List.length batch <= List.length [0; 0; 0] /\
  Subfinder.concurrencyMap batch batchMapper 1 [0; 0; 0] =
  Some (expected batch batchMapper).
Proof.
  split; [simpl; lia|].
  apply (concurrencyMap_sequential batch batchMapper [0; 0; 0]). simpl. lia.
Defined.

(** X17: with a mapper that always returns a promise, as an [async]
    function does, the promise of [concurrencyMap] is still pending while
    fewer promises have settled than there are items, whatever the order
    of the settlements. *)
Theorem concurrencyMap_pending {A R : Type}
  (items : list A) (mapper : nat -> A -> Called R) (K : nat) (sched : list nat) :
  neverThrows mapper ->
  1 <= K ->
  List.length sched < List.length items ->
  Subfinder.concurrencyMap items mapper K sched = None.
Proof.
  intros Hasync HK Hsched.
  destruct (Subfinder.concurrencyMap items mapper K sched) as [out|] eqn:E;
    [|reflexivity].
  destruct (concurrencyMap_returns items mapper K sched out HK E) as (Hlen & _).
  unfold Subfinder.concurrencyMap in E.
  destruct (Subfinder.allDone _); [|discriminate]. injection E as E.
  pose proof (settle_some items mapper K Hasync sched
                (Subfinder.start items mapper K)) as Hle.
  fold (Subfinder.exec items mapper K sched) in Hle.
  rewrite (start_async items mapper K Hasync) in Hle.
  rewrite E in Hle. simpl in Hle. lia.
Qed.

Lemma concurrencyMap_pending_witness :
  neverThrows batchMapper /\ 1 <= 2 /\ List.length [1; 0] < List.length batch /\
  Subfinder.concurrencyMap batch batchMapper 2 [1; 0] = None.
Proof.
  split; [exact batchMapper_async|]. split; [lia|]. split; [simpl; lia|].
  apply (concurrencyMap_pending batch batchMapper 2 [1; 0]);
    [exact batchMapper_async|lia|simpl; lia].
Defined.

(** X18: with a mapper that always returns a promise, when
    [concurrencyMap] reaches its [await] the mapper has been called on the
    first K items, or on all of them when they are fewer, those calls are
    all in flight and nothing has been pushed. *)
Theorem concurrencyMap_start {A R : Type}
  (items : list A) (mapper : nat -> A -> Called R) (K : nat) :
  neverThrows mapper ->
  Subfinder.invoked (Subfinder.start items mapper K) = firstn K items /\
  Subfinder.inFlight (Subfinder.start items mapper K) = Nat.min K (List.length items) /\
  Subfinder.out (Subfinder.start items mapper K) = [].
Proof.
  intros Hasync.
  destruct (start_spec items mapper K) as (Hc & _).
  pose proof (start_async items mapper K Hasync) as Hout.
  assert (Hi : Subfinder.index (Subfinder.start items mapper K) = K).
  { unfold Subfinder.start. now rewrite (spawn_index items mapper Hasync). }
  destruct (consistent_counts items mapper _ Hc) as [Hcount _].
  destruct Hc as (Hinv & _).
  rewrite Hi in *. rewrite Hout in Hcount. simpl in Hcount.
  now split; [|split].
Qed.

Lemma concurrencyMap_start_witness :
  neverThrows batchMapper /\
  Subfinder.invoked (Subfinder.start batch batchMapper 2) = firstn 2 batch /\
  Subfinder.inFlight (Subfinder.start batch batchMapper 2) = Nat.min 2 (List.length batch) /\
  Subfinder.out (Subfinder.start batch batchMapper 2) = [].
Proof.
  split; [exact batchMapper_async|].
  apply (concurrencyMap_start batch batchMapper 2). exact batchMapper_async.
Defined.

(** X19: the array [out] only grows at its end: what has been pushed after
    some settlements is still there, in the same places, after any
    further ones; with a mapper that always returns a promise each
    settlement adds at most one record. *)
Theorem concurrencyMap_appends {A R : Type}
  (items : list A) (mapper : nat -> A -> Called R) (K : nat)
  (sched more : list nat) :
  exists tail,
    Subfinder.out (Subfinder.exec items mapper K (sched ++ more)) =
    Subfinder.out (Subfinder.exec items mapper K sched) ++ tail /\
    (neverThrows mapper -> List.length tail <= List.length more).
Proof.
  induction more as [|n more (tail & Ht & Hl)] using rev_ind.
  - exists []. rewrite !app_nil_r. split; [reflexivity|simpl; lia].
  - rewrite app_assoc, exec_snoc.
    destruct (settleNext_out items mapper K n _
                (exec_reachable items mapper K (sched ++ more))) as (t & Hn & Hlt).
    exists (tail ++ t). rewrite Hn, Ht, <- app_assoc.
    split; [reflexivity|]. intros Hasync.
    specialize (Hl Hasync). specialize (Hlt Hasync).
    rewrite !length_app. simpl. lia.
Qed.

Lemma concurrencyMap_appends_witness :
  neverThrows batchMapper /\
  exists tail,
    Subfinder.out (Subfinder.exec batch batchMapper 2 ([1] ++ [0; 0])) =
    Subfinder.out (Subfinder.exec batch batchMapper 2 [1]) ++ tail /\
    List.length tail <= List.length [0; 0].
Proof.
  split; [exact batchMapper_async|].
  destruct (concurrencyMap_appends batch batchMapper 2 [1] [0; 0]) as (tail & Ht & Hl).
  exists tail. split; [exact Ht|]. exact (Hl batchMapper_async).
Defined.

(** A mapper that throws before returning a promise has its error record
    pushed in the turn that called it: on [throwingMapper] the first
    worker records the failure of "a.example.com" and goes on to
    "b.example.com" before [concurrencyMap] reaches its [await], and two
    settlements complete the three items. *)
Example concurrencyMap_throwing :
  Subfinder.out (Subfinder.start batch throwingMapper 2) =
    [ErrorRec "a.example.com" (TypeError "host is not resolvable")] /\
  Subfinder.invoked (Subfinder.start batch throwingMapper 2) = batch /\
  Subfinder.inFlight (Subfinder.start batch throwingMapper 2) = 2 /\
  Subfinder.concurrencyMap batch throwingMapper 2 [1; 0] =
    Some [ ErrorRec "a.example.com" (TypeError "host is not resolvable");
           ResultRec "c.example.com" ["192.0.2.1"];
           ResultRec "b.example.com" ["192.0.2.1"] ].
Proof. repeat split. Qed.

(* ================================================================== *)
(** * main of subfinder.js, from the arguments to the summary *)
(* ================================================================== *)

Section MainFacts.
Variable localeCompare : string -> string -> Z.
Variable h : Handler.

Local Notation "'resolver'" :=
  (fun (_ : nat) host => Returned (run h (Subfinder.resolveHost host))).


Lemma fetch_output_hosts domain :
  hostLines (output h (Subfinder.fetchSubdomains domain)) = [].
Proof.
  rewrite subfinder_fetch_output.
  destruct (h _ (axios_get _ _)) as [data|err]; [|reflexivity].
  destruct (Subfinder.collect domain data); reflexivity.
Qed.

Lemma fetchSubdomains_kept domain subs :
  run h (Subfinder.fetchSubdomains domain) = Fulfilled subs ->
  Forall (fun x => toLowerCase x = x /\ endsWith x (toLowerCase domain) = true) subs.
Proof.
  rewrite subfinder_fetch_run.
  destruct (h _ (axios_get _ _)) as [data|err]; [|intros [= <-]; constructor].
  destruct (Subfinder.collect domain data) as [l|err] eqn:E;
    [|intros [= <-]; constructor].
  intros [= <-]. eapply collect_kept; eauto.
Qed.

(** The records owed when [resolveHost] is the mapper: one result record
    per candidate, with the array its run is fulfilled with. *)
Lemma resolver_records subs k :
  recordsFrom resolver k subs =
  map (fun x => settledRecord x (run h (Subfinder.resolveHost x))) subs.
Proof.
  revert k. induction subs as [|x subs IH]; intros k; cbn [recordsFrom map];
    [reflexivity|].
  rewrite IH. f_equal.
Qed.

Lemma resolver_expected_In subs o :
  In o (expected subs resolver) <->
  exists x ips, In x subs /\ run h (Subfinder.resolveHost x) = Fulfilled ips /\
                o = ResultRec x ips.
Proof.
  unfold expected. rewrite resolver_records, in_map_iff. split.
  - intros (x & <- & Hx). exists x.
    pose proof (resolveHost_run h x) as E. rewrite E. simpl. eauto.
  - intros (x & ips & Hx & E & ->). exists x. rewrite E. simpl. auto.
Qed.


Lemma main_hosts domain sched subs :
  run h (Subfinder.fetchSubdomains domain) = Fulfilled subs ->
  incl (hostLines (Subfinder.main localeCompare domain h sched)) subs.
Proof.
  intros Hrun. unfold Subfinder.main. rewrite Hrun.
  remember (Subfinder.concurrencyMap subs resolver Subfinder.MAX_CONCURRENT sched)
    as cm eqn:E.
  change (InfoName "[+] Fetching subdomains for: #" domain :: ?l)
    with ([InfoName "[+] Fetching subdomains for: #" domain] ++ l).
  rewrite !hostLines_app, fetch_output_hosts. simpl.
  destruct (List.length subs =? 0)%nat; [intros x Hx; simpl in Hx; tauto|].
  destruct cm as [resolved|]; [|intros x Hx; simpl in Hx; tauto].
  symmetry in E.
  assert (HK : 1 <= Subfinder.MAX_CONCURRENT) by (unfold Subfinder.MAX_CONCURRENT; lia).
  destruct (concurrencyMap_returns subs resolver _ sched resolved HK E)
    as (_ & Hperm & _).
  simpl. rewrite report_spec, hostLines_app, hostLines_blocks. simpl. rewrite app_nil_r.
  intros x Hx. apply in_map_iff in Hx as (o & <- & Ho).
  apply filter_In in Ho as [Ho _].
  eapply Permutation_in in Ho; [|apply sortBy_perm].
  eapply Permutation_in in Ho; [|exact Hperm].
  apply resolver_expected_In in Ho as (y & ips & Hy & _ & ->). exact Hy.
Qed.

End MainFacts.



(** X22: whatever the argument on the command line and whatever the
    network answers, every host name that the script prints is in
    lowercase and ends with the lowercased argument; without an argument
    the usage line is all that is printed. *)
Theorem program_hosts (localeCompare : string -> string -> Z)
  (a : string) (rest : list string) (h : Handler) (sched : list nat) :
  Forall (fun host => toLowerCase host = host /\
                      endsWith host (toLowerCase a) = true)
         (hostLines (Subfinder.program localeCompare (a :: rest) h sched)) /\
  Subfinder.program localeCompare [] h sched =
    [Info "Usage: node subfinder.js <domain>"].
Proof.
  split; [|reflexivity].
  change (Subfinder.program localeCompare (a :: rest) h sched)
    with (Subfinder.main localeCompare (toLowerCase a) h sched).
  assert (Hrun : exists subs,
             run h (Subfinder.fetchSubdomains (toLowerCase a)) = Fulfilled subs).
  { rewrite subfinder_fetch_run.
    destruct (h _ (axios_get _ _)) as [data|e]; [|eauto].
    destruct (Subfinder.collect _ data); eauto. }
  destruct Hrun as [subs Hrun].
  pose proof (fetchSubdomains_kept h _ subs Hrun) as Hkept.
  rewrite toLowerCase_idem in Hkept.
  apply Forall_forall. intros x Hx.
  rewrite Forall_forall in Hkept. apply Hkept.
  eapply main_hosts; eauto.
Qed.

(* ================================================================== *)
(** * Order of the addresses and agreement of the two scripts *)
(* ================================================================== *)

Lemma Set_add_extends x s :
  exists t, Set_add x s = s ++ t /\ forall y, In y t -> ~ In y s.
Proof.
  unfold Set_add. destruct (existsb (String.eqb x) s) eqn:E.
  - exists []. rewrite app_nil_r. split; [reflexivity|intros y []].
  - exists [x]. split; [reflexivity|].
    intros y [<-|[]] Hin. apply existsb_eqb_In in Hin. congruence.
Qed.

Lemma Set_addAll_extends xs : forall s,
  exists t, Set_addAll xs s = s ++ t /\ forall y, In y t -> ~ In y s.
Proof.
  unfold Set_addAll. induction xs as [|x xs IH]; intros s; simpl.
  - exists []. rewrite app_nil_r. split; [reflexivity|intros y []].
  - destruct (Set_add_extends x s) as (t1 & E1 & H1).
    destruct (IH (Set_add x s)) as (t2 & E2 & H2).
    exists (t1 ++ t2). rewrite E2, E1, <- app_assoc. split; [reflexivity|].
    intros y Hy Hin. apply in_app_or in Hy as [Hy|Hy].
    + now apply (H1 y).
    + apply (H2 y Hy). rewrite E1. apply in_or_app. now left.
Qed.

(** X23: the array of [resolveHost] starts with the addresses of the
    generic lookup, in the order of its answer and each once; what the
    IPv4 and IPv6 queries add comes after and holds no address of the
    lookup; and a run prints nothing, whichever strategies fail. *)
Theorem resolveHost_lookup_first (h : Handler) (host : string) :
  exists rest,
    run h (Subfinder.resolveHost host) =
      Fulfilled (Set_addAll (map address (found (h _ (dns_lookup host lookupOptions)))) []
                 ++ rest) /\
    (forall ip, In ip rest ->
                ~ In ip (map address (found (h _ (dns_lookup host lookupOptions))))) /\
    output h (Subfinder.resolveHost host) = [].
Proof.
  rewrite resolveHost_run, resolveHost_silent.
  set (s0 := Set_addAll (map address (found (h _ (dns_lookup host lookupOptions)))) []).
  destruct (Set_addAll_extends (found (h _ (dns_resolve4 host))) s0) as (t1 & E1 & H1).
  destruct (Set_addAll_extends (found (h _ (dns_resolve6 host))) (s0 ++ t1))
    as (t2 & E2 & H2).
  exists (t1 ++ t2). rewrite E1, E2, <- app_assoc.
  split; [reflexivity|]. split; [|reflexivity].
  intros ip Hip Hin.
  assert (Hs0 : In ip s0) by (unfold s0; apply Set_addAll_In; now left).
  apply in_app_or in Hip as [Hip|Hip].
  - now apply (H1 ip).
  - apply (H2 ip Hip). apply in_or_app. now left.
Qed.

(** X24: on a name without capital letters and without a leading
    wildcard marker, and for a domain that is not empty, the inner loops
    of the two scripts decide alike and keep the same string. *)
Theorem normalize_scripts_agree (d s : string) :
  toLowerCase s = s -> d <> EmptyString -> replaceWildcard (trim s) = trim s ->
  DomainJs.normalize d s = Subfinder.normalize d s.
Proof.
  intros Hlow Hd Hw. unfold DomainJs.normalize, Subfinder.normalize.
  rewrite Hw, (lowercase_trim s Hlow).
  destruct (endsWith (trim s) d) eqn:E; [|now rewrite andb_false_r].
  assert (Hne : trim s <> EmptyString) by (eapply endsWith_nonempty; eauto).
  unfold nonEmpty. apply String.eqb_neq in Hne. now rewrite Hne.
Qed.

Lemma normalize_scripts_agree_witness :
  toLowerCase "api.example.com " = "api.example.com " /\
  "example.com" <> EmptyString /\
  replaceWildcard (trim "api.example.com ") = trim "api.example.com " /\
  DomainJs.normalize "example.com" "api.example.com " =
  Subfinder.normalize "example.com" "api.example.com ".
Proof.
  split; [reflexivity|]. split; [discriminate|]. split; [reflexivity|].
  apply (normalize_scripts_agree "example.com" "api.example.com ");
    [reflexivity|discriminate|reflexivity].
Defined.

Lemma main_order_independent_witness :
  List.length batch <= List.length [1; 0; 0] /\
  List.length batch <= List.length [0; 1; 0] /\
  Subfinder.main codeUnitCompare "example.com" batchNetwork [1; 0; 0] =
  Subfinder.main codeUnitCompare "example.com" batchNetwork [0; 1; 0].
Proof.
  split; [simpl; lia|]. split; [simpl; lia|].
  apply (main_order_independent codeUnitCompare "example.com" batchNetwork
           [1; 0; 0] [0; 1; 0] batch
           codeUnitCompare_total codeUnitCompare_trans codeUnitCompare_strict);
    [reflexivity|simpl; lia|simpl; lia].
Defined.

(* ================================================================== *)
(** * Concrete runs *)
(* ================================================================== *)

(** The candidate scenario: subfinder.js keeps the base name of the
    wildcard entry and the lowercased names, and also the name that lacks
    a label boundary; subdomain.js keeps the wildcard entry as it is. *)
Example fetch_scenario :
  run certNetwork (Subfinder.fetchSubdomains "example.com") =
    Fulfilled ["api.example.com"; "evilexample.com"; "example.com"; "www.example.com"] /\
  run certNetwork (DomainJs.fetchSubdomains "example.com") =
    Fulfilled ["*.example.com"; "www.example.com"; "api.example.com"; "evilexample.com"].
Proof. split; reflexivity. Qed.

(** The batch scenario with two workers, "b" settling first. *)
Example concurrencyMap_batch :
  Subfinder.concurrencyMap batch batchMapper 2 [1; 0; 0] =
  Some [ ErrorRec "b.example.com" (LibraryError "ETIMEOUT" "timed out");
         ResultRec "a.example.com" ["192.0.2.1"];
         ResultRec "c.example.com" ["192.0.2.1"] ].
Proof. reflexivity. Qed.

(** The same batch through [main]: 3 found, 2 resolved, "b" left out. *)
Example main_batch :
  Subfinder.main codeUnitCompare "example.com" batchNetwork [1; 0; 0] =
  [ InfoName "[+] Fetching subdomains for: #" "example.com";
    InfoCount "[+] Found # unique subdomains." 3;
    Info "[+] Resolving IP addresses...";
    HostLine "a.example.com"; AddressLine "192.0.2.1";
    HostLine "c.example.com"; AddressLine "192.0.2.1";
    Info "Summary:";
    InfoCount " - Total subdomains found: #" 3;
    InfoCount " - Successfully resolved: #" 2 ].
Proof. reflexivity. Qed.

(** subdomain.js on the same names: one [resolve4] per name, the name that
    times out is skipped. *)
Example resolveSubdomains_batch :
  run batchNetwork (DomainJs.resolveSubdomains batch) =
  Fulfilled [("a.example.com", ["192.0.2.1"]); ("c.example.com", ["192.0.2.1"])].
Proof. reflexivity. Qed.
